(** * ForexNews-Bot: the notification core, embedded and verified

    The development follows [src/utils.py] ([filter_events], [NewsTracker],
    [escape_markdown], [ForexFactoryCalendar.get_calendar] and
    [_process_events]) and [src/main.py] ([get_upcoming_events],
    [check_upcoming_news], [cmd_upcoming], [send_weekly_schedule]).

    - Python dictionaries built by [ForexFactoryCalendar._process_events]
      always carry the same eight keys; they are records here, with an
      optional ['datetime'] key that [get_upcoming_events] adds.
    - [datetime] values are civil records in the fixed zone of the program
      (Asia/Tashkent, UTC+5 with no daylight saving), so that the difference
      of two aware datetimes is the difference of their local clocks.
    - the set [NewsTracker.sent_news] is a [gset string]; the file
      [sent_news.json] is a value of type [file].
    - the two effects of the notifier that can raise, [bot.send_message] and
      the rewrite of the file, take their outcome from a script carried by
      the world, so that every failure pattern is an input of the model. *)

From Stdlib Require Import ZArith QArith String Ascii List Lia.
From Stdlib Require Import DecimalString.
From stdpp Require Import base decidable option list sets gmap strings sorting.

Open Scope string_scope.
Open Scope list_scope.
Open Scope Z_scope.

(* ===================================================================== *)
(** * Civil time                                                          *)
(* ===================================================================== *)

Module Calendar.

(** A [datetime.datetime] read on the local clock of the program's zone. *)
Record datetime := mkDatetime {
  year : Z; month : Z; day : Z;
  hour : Z; minute : Z; second : Z; microsecond : Z
}.

#[global] Instance datetime_eq_dec : EqDecision datetime.
Proof. solve_decision. Defined.

(** [datetime._is_leap], [_days_in_month], [_days_before_year],
    [_days_before_month] and [_ymd2ord] of CPython's [datetime] module. *)
Definition is_leap (y : Z) : bool :=
  (y mod 4 =? 0) && (negb (y mod 100 =? 0) || (y mod 400 =? 0)).

Definition days_in_month (y m : Z) : Z :=
  if m =? 2 then (if is_leap y then 29 else 28)
  else if (m =? 4) || (m =? 6) || (m =? 9) || (m =? 11) then 30
  else 31.

Definition days_before_year (y : Z) : Z :=
  let p := y - 1 in p * 365 + p / 4 - p / 100 + p / 400.

Fixpoint days_before_month_nat (y : Z) (m : nat) : Z :=
  match m with
  | O => 0
  | S k => days_before_month_nat y k + days_in_month y (Z.of_nat (S k))
  end.

Definition days_before_month (y m : Z) : Z :=
  days_before_month_nat y (Z.to_nat (m - 1)).

Definition toordinal (d : datetime) : Z :=
  days_before_year (year d) + days_before_month (year d) (month d) + day d.

(** Microseconds on the local clock since the origin of the ordinals. *)
Definition to_us (d : datetime) : Z :=
  (((toordinal d * 24 + hour d) * 60 + minute d) * 60 + second d) * 1000000
  + microsecond d.

(** [a - b] for two datetimes of the same zone: a [timedelta], counted in
    microseconds. *)
Definition sub_us (a b : datetime) : Z := to_us a - to_us b.

(** [timedelta(hours=h)]: the constructor raises [OverflowError] when the
    number of days leaves [-999999999, 999999999]. *)
Definition timedelta_hours (h : Z) : option Z :=
  if (-999999999 <=? h / 24) && (h / 24 <=? 999999999)
  then Some (h * 3600000000) else None.

(** [d.date() == n.date()] *)
Definition same_date (d n : datetime) : bool :=
  (year d =? year n) && (month d =? month n) && (day d =? day n).

(** [d.time()] as microseconds since midnight; [d.time() < n.time()]
    compares these. *)
Definition time_of_day (d : datetime) : Z :=
  ((hour d * 60 + minute d) * 60 + second d) * 1000000 + microsecond d.

(** [d.replace(year=y)]: the constructor re-validates the date and raises
    [ValueError] for a year outside [1, 9999] or a day the month does not
    have in that year. *)
Definition replace_year (d : datetime) (y : Z) : option datetime :=
  if (1 <=? y) && (y <=? 9999) && (day d <=? days_in_month y (month d))
  then Some (mkDatetime y (month d) (day d) (hour d) (minute d)
                        (second d) (microsecond d))
  else None.

(** ** [datetime.strptime(s, '%b %d %I:%M%p')]

    The parser accepts the strings that [strftime('%b %d')] and
    [strftime('%I:%M%p')] produce in [_process_events], joined by one space:
    ["Nov 05 07:30PM"].  CPython's [strptime] also accepts variants that the
    normalizer never emits (lower case, one-digit fields); they are
    rejected here. *)
Definition digit (c : ascii) : option Z :=
  let n := Z.of_N (N_of_ascii c) in
  if (48 <=? n) && (n <=? 57) then Some (n - 48) else None.

Definition two_digits (a b : ascii) : option Z :=
  match digit a, digit b with
  | Some x, Some y => Some (10 * x + y)
  | _, _ => None
  end.

Definition month_names : list string :=
  ["Jan"; "Feb"; "Mar"; "Apr"; "May"; "Jun";
   "Jul"; "Aug"; "Sep"; "Oct"; "Nov"; "Dec"].

Fixpoint index_of (s : string) (l : list string) (i : Z) : option Z :=
  match l with
  | [] => None
  | x :: r => if String.eqb s x then Some i else index_of s r (i + 1)
  end.

Definition month_of (a b c : ascii) : option Z :=
  index_of (String a (String b (String c EmptyString))) month_names 1.

(** The 12-hour clock of [%I] and [%p]. *)
Definition hour24 (h : Z) (pm : bool) : Z :=
  if pm then (if h =? 12 then 12 else h + 12)
  else (if h =? 12 then 0 else h).

Definition strptime (s : string) : option datetime :=
  match list_ascii_of_string s with
  | [m1; m2; m3; sp1; d1; d2; sp2; h1; h2; co; n1; n2; p; mm] =>
      if negb (Ascii.eqb sp1 " " && Ascii.eqb sp2 " " && Ascii.eqb co ":"
               && Ascii.eqb mm "M" && (Ascii.eqb p "A" || Ascii.eqb p "P"))
      then None
      else
        match month_of m1 m2 m3, two_digits d1 d2,
              two_digits h1 h2, two_digits n1 n2 with
        | Some mo, Some d, Some h, Some mi =>
            if (1 <=? d) && (d <=? days_in_month 1900 mo)
               && (1 <=? h) && (h <=? 12) && (mi <=? 59)
            then Some (mkDatetime 1900 mo d (hour24 h (Ascii.eqb p "P")) mi 0 0)
            else None
        | _, _, _, _ => None
        end
  | _ => None
  end.

End Calendar.

(* ===================================================================== *)
(** * Events: [filter_events] and [get_upcoming_events]                   *)
(* ===================================================================== *)

Module Events.
Import Calendar.

(** The value under ['impact']: an [int] after the normalizer, a [str]
    after [filter_events]. *)
Inductive value :=
| VInt (n : Z)
| VStr (s : string).

#[global] Instance value_eq_dec : EqDecision value.
Proof. solve_decision. Defined.

(** An event dictionary.  ['datetime'] is absent until
    [get_upcoming_events] sets it. *)
Record Dict := mkDict {
  ev_date : string;
  ev_time : string;
  ev_currency : string;
  ev_impact : value;
  ev_event : string;
  ev_forecast : string;
  ev_previous : string;
  ev_id : string;
  ev_datetime : option datetime
}.

#[global] Instance Dict_eq_dec : EqDecision Dict.
Proof. solve_decision. Defined.

Definition set_impact (v : value) (d : Dict) : Dict :=
  mkDict (ev_date d) (ev_time d) (ev_currency d) v (ev_event d)
         (ev_forecast d) (ev_previous d) (ev_id d) (ev_datetime d).

Definition set_event (s : string) (d : Dict) : Dict :=
  mkDict (ev_date d) (ev_time d) (ev_currency d) (ev_impact d) s
         (ev_forecast d) (ev_previous d) (ev_id d) (ev_datetime d).

Definition set_datetime (t : datetime) (d : Dict) : Dict :=
  mkDict (ev_date d) (ev_time d) (ev_currency d) (ev_impact d) (ev_event d)
         (ev_forecast d) (ev_previous d) (ev_id d) (Some t).

(** ** The object store

    Dictionaries are objects: a list of events is a list of references into
    a store, [event.copy()] allocates, and [d[k] = v] updates in place. *)
Abbreviation ref := nat (only parsing).
Abbreviation Heap := (list Dict) (only parsing).

Definition getobj (h : Heap) (r : ref) : option Dict := h !! r.

Definition copy (r : ref) (h : Heap) : option (ref * Heap) :=
  d ← getobj h r; Some (List.length h, h ++ [d]).

Definition setitem (r : ref) (f : Dict → Dict) (h : Heap) : Heap :=
  alter f r h.

(** [impact_map.get(v, "Unknown")] with
    [impact_map = {0: "Holiday", 1: "Low", 2: "Medium", 3: "High"}]. *)
Definition impact_text (v : value) : string :=
  match v with
  | VInt 0 => "Holiday"
  | VInt 1 => "Low"
  | VInt 2 => "Medium"
  | VInt 3 => "High"
  | _ => "Unknown"
  end.

(** [x != 'N/A' and x]: a string other than ["N/A"] that is not empty. *)
Definition available (x : string) : bool :=
  negb (String.eqb x "N/A") && negb (String.eqb x "").

(** [sep.join(l)] *)
Fixpoint join (sep : string) (l : list string) : string :=
  match l with
  | [] => ""
  | [x] => x
  | x :: r => x +:+ sep +:+ join sep r
  end.

(** The list [values] built from a dictionary. *)
Definition values_of (d : Dict) : list string :=
  (if available (ev_forecast d) then ["F: " +:+ ev_forecast d] else [])
  ++ (if available (ev_previous d) then ["P: " +:+ ev_previous d] else []).

Definition default_currencies : list string := ["USD"; "EUR"; "CAD"].

(** The body of the [for] loop of [filter_events], for one event. *)
Definition filter_step (currencies : list string) (r : ref)
    (filtered : list ref) (h : Heap) : option (list ref * Heap) :=
  ev ← getobj h r;
  if bool_decide (ev_currency ev ∈ currencies) then
    '(c, h1) ← copy r h;
    cp ← getobj h1 c;
    let h2 := setitem c (set_impact (VStr (impact_text (ev_impact cp)))) h1 in
    cp ← getobj h2 c;
    let values := values_of cp in
    let h3 :=
      match values with
      | [] => h2
      | _ => setitem c (set_event (ev_event cp +:+ " (" +:+ join ", " values
                                   +:+ ")")) h2
      end in
    Some (filtered ++ [c], h3)
  else Some (filtered, h).

Fixpoint filter_loop (currencies : list string) (events : list ref)
    (filtered : list ref) (h : Heap) : option (list ref * Heap) :=
  match events with
  | [] => Some (filtered, h)
  | r :: rest =>
      '(filtered', h') ← filter_step currencies r filtered h;
      filter_loop currencies rest filtered' h'
  end.

(** [filter_events(events, currencies=None)].  The result is [None] only
    for a reference that is not in the store, which Python cannot build. *)
Definition filter_events (events : list ref) (currencies : option (list string))
    (h : Heap) : option (list ref * Heap) :=
  let currencies := default default_currencies currencies in
  filter_loop currencies events [] h.

(** What one kept event looks like after the loop body, as a value. *)
Definition enrich (d : Dict) : Dict :=
  let d1 := set_impact (VStr (impact_text (ev_impact d))) d in
  match values_of d1 with
  | [] => d1
  | vs => set_event (ev_event d1 +:+ " (" +:+ join ", " vs +:+ ")") d1
  end.

(** The display title in the words of the specification: the forecast and
    the previous value are appended in parentheses when they are present
    and not ["N/A"].  [enrich] is compared with it below. *)
Definition display_title (d : Dict) : string :=
  match available (ev_forecast d), available (ev_previous d) with
  | true, true =>
      ev_event d +:+ " (F: " +:+ ev_forecast d
                 +:+ ", P: " +:+ ev_previous d +:+ ")"
  | true, false => ev_event d +:+ " (F: " +:+ ev_forecast d +:+ ")"
  | false, true => ev_event d +:+ " (P: " +:+ ev_previous d +:+ ")"
  | false, false => ev_event d
  end.

(** ** [list.sort(key=...)]: a stable sort on an integer key *)
Section Sort.
Context {A : Type} (key : A → Z).

Fixpoint insert_by (x : A) (l : list A) : list A :=
  match l with
  | [] => [x]
  | y :: r => if key x <=? key y then x :: y :: r else y :: insert_by x r
  end.

Fixpoint sort_by (l : list A) : list A :=
  match l with
  | [] => []
  | x :: r => insert_by x (sort_by r)
  end.

End Sort.

(** ** [get_upcoming_events] *)

(** The three statements that compute [event_date]; [None] is the
    [ValueError] that the inner handler catches. *)
Definition event_date (ev : Dict) (now : datetime) : option datetime :=
  d0 ← strptime (ev_date ev +:+ " " +:+ ev_time ev);
  d1 ← replace_year d0 (year now);
  if same_date d1 now && (time_of_day d1 <? time_of_day now)
  then replace_year d1 (year now + 1)
  else Some d1.

(** How the loop body ends for one event. *)
Inductive verdict :=
| Keep (ev : Dict)      (* appended to [upcoming_events] *)
| Skip                  (* outside the window, or [ValueError] *)
| Escape.               (* [OverflowError]: reaches the outer handler *)

(** [timedelta(0) <= time_diff <= timedelta(hours=hours)]: a chained
    comparison, so [timedelta(hours=hours)] is built only when the first
    test holds. *)
Definition upcoming_step (hours : Z) (now : datetime) (ev : Dict) : verdict :=
  match event_date ev now with
  | None => Skip
  | Some d =>
      let time_diff := sub_us d now in
      if 0 <=? time_diff then
        match timedelta_hours hours with
        | None => Escape
        | Some horizon =>
            if time_diff <=? horizon then Keep (set_datetime d ev) else Skip
        end
      else Skip
  end.

Fixpoint upcoming_loop (hours : Z) (now : datetime) (filtered : list Dict)
    : option (list Dict) :=
  match filtered with
  | [] => Some []
  | ev :: rest =>
      match upcoming_step hours now ev with
      | Escape => None
      | Skip => upcoming_loop hours now rest
      | Keep ev' => cons ev' <$> upcoming_loop hours now rest
      end
  end.

(** The window of the specification, [0 <= occursAt - now <= hours], and
    the selection it describes: the events whose occurrence time can be
    computed and lies in the window, each with that time, in feed order.
    [get_upcoming_events] is compared with it below. *)
Definition in_window (hours : Z) (now d : datetime) : Prop :=
  0 ≤ sub_us d now ≤ hours * 3600000000.

Definition select_upcoming (hours : Z) (now : datetime)
    (filtered : list Dict) : list Dict :=
  omap (λ ev, d ← event_date ev now;
              if bool_decide (in_window hours now d)
              then Some (set_datetime d ev) else None) filtered.

(** The sort key [x['datetime']]; every event in [upcoming_events] has it. *)
Definition datetime_key (ev : Dict) : Z :=
  match ev_datetime ev with
  | Some d => to_us d
  | None => 0
  end.

(** [get_upcoming_events(hours)].  [feed] is what [scrape_forex_factory()]
    returned, [currencies] is [config.currency.currencies] and [now] is
    [datetime.now(TIMEZONE)].  The feed's dictionaries sit in a fresh store;
    the copies made by [filter_events] are referenced by nothing else, so
    the rest of the function works on their contents.  The outer handler
    turns every escaping exception into the empty list. *)
Definition get_upcoming_events (hours : Z) (feed : list Dict)
    (currencies : list string) (now : datetime) : list Dict :=
  match filter_events (seq 0 (List.length feed)) (Some currencies) feed with
  | None => []
  | Some (refs, h) =>
      match mapM (getobj h) refs with
      | None => []
      | Some filtered_events =>
          match upcoming_loop hours now filtered_events with
          | None => []
          | Some upcoming_events => sort_by datetime_key upcoming_events
          end
      end
  end.

End Events.

(* ===================================================================== *)
(** * The notification state: [NewsTracker]                               *)
(* ===================================================================== *)

Module Store.

(** The exceptions that the modelled code can meet. *)
Inductive exn :=
| OSError             (* the rewrite of the state file failed *)
| JSONDecodeError     (* the state file does not hold JSON *)
| TelegramError       (* [bot.send_message] failed *)
| KeyError.           (* a dictionary without the key that is read *)

#[global] Instance exn_eq_dec : EqDecision exn.
Proof. solve_decision. Defined.

Inductive result (A : Type) :=
| Ok (a : A)
| Raise (e : exn).
Arguments Ok {A} a.
Arguments Raise {A} e.

(** The file [sent_news.json]: missing, a JSON array of strings, or
    something [json.load] rejects (a truncated write). *)
Inductive file :=
| Absent
| Json (keys : list string)
| Garbage.

(** How one rewrite of the file ends.  [open(filename, 'w')] may raise
    before it touches the file; [json.dump] may raise after [open] has
    truncated it. *)
Inductive write_outcome :=
| WriteOk
| OpenFails
| DumpFails.

(** A tracker: the set in memory, and the file that [self.filename] names. *)
Record NewsTracker := mkTracker {
  sent_news : gset string;
  disk : file
}.

(** [_load_sent_news]: reads, and leaves the tracker as it is. *)
Definition load_sent_news (f : file) : result (gset string) :=
  match f with
  | Absent => Ok ∅
  | Json keys => Ok (list_to_set keys)
  | Garbage => Raise JSONDecodeError
  end.

(** [NewsTracker.__init__]: a new tracker on the file. *)
Definition init (f : file) : result NewsTracker :=
  match load_sent_news f with
  | Ok s => Ok (mkTracker s f)
  | Raise e => Raise e
  end.

(** [_save_sent_news]: [json.dump(list(self.sent_news), f)].  Python fixes
    no order for [list(set)]; [elements] is one enumeration without
    repetition, and the file is only ever read back as a set. *)
Definition save_sent_news (o : write_outcome) (t : NewsTracker)
    : NewsTracker * result unit :=
  match o with
  | WriteOk => (mkTracker (sent_news t) (Json (elements (sent_news t))), Ok tt)
  | OpenFails => (t, Raise OSError)
  | DumpFails => (mkTracker (sent_news t) Garbage, Raise OSError)
  end.

Definition is_news_sent (news_id : string) (t : NewsTracker) : bool :=
  bool_decide (news_id ∈ sent_news t).

(** [mark_as_sent]: [self.sent_news.add(news_id)], then the save. *)
Definition mark_as_sent (news_id : string) (o : write_outcome)
    (t : NewsTracker) : NewsTracker * result unit :=
  let t1 := mkTracker ({[news_id]} ∪ sent_news t) (disk t) in
  save_sent_news o t1.

(** The set that the file holds, empty when it holds none. *)
Definition stored_keys (f : file) : gset string :=
  match f with
  | Json keys => list_to_set keys
  | _ => ∅
  end.

(** A sequence of calls on one tracker. *)
Inductive store_op :=
| OpIsSent (news_id : string)
| OpMark (news_id : string) (o : write_outcome)
| OpLoad
| OpSave (o : write_outcome).

Definition run_op (op : store_op) (t : NewsTracker) : NewsTracker :=
  match op with
  | OpIsSent k => let _ := is_news_sent k t in t
  | OpMark k o => fst (mark_as_sent k o t)
  | OpLoad => let _ := load_sent_news (disk t) in t
  | OpSave o => fst (save_sent_news o t)
  end.

Definition run_ops (ops : list store_op) (t : NewsTracker) : NewsTracker :=
  foldl (λ t op, run_op op t) t ops.

(** The operations on the notification state as the program performs
    them.  The program loads in one place only: [NewsTracker.__init__]
    assigns what [_load_sent_news] returns, so a load builds the tracker
    anew from the file and replaces the set in memory. *)
Inductive state_op :=
| IsSent (news_id : string)
| MarkSent (news_id : string) (o : write_outcome)
| Load.

#[global] Instance write_outcome_eq_dec : EqDecision write_outcome.
Proof. solve_decision. Defined.

#[global] Instance state_op_eq_dec : EqDecision state_op.
Proof. solve_decision. Defined.

(** When the load raises, no tracker is built and nothing more happens. *)
Fixpoint run_state_ops (ops : list state_op) (t : NewsTracker)
    : NewsTracker :=
  match ops with
  | [] => t
  | IsSent k :: rest => let _ := is_news_sent k t in run_state_ops rest t
  | MarkSent k o :: rest => run_state_ops rest (fst (mark_as_sent k o t))
  | Load :: rest =>
      match init (disk t) with
      | Ok t' => run_state_ops rest t'
      | Raise _ => t
      end
  end.

End Store.

(* ===================================================================== *)
(** * The threshold notifier: [check_upcoming_news]                       *)
(* ===================================================================== *)

Module Notifier.
Import Calendar Events Store.

(** What is sent to the channel.  The text is a function of the kind of
    alert and of the event ([format_event_message], [escape_markdown]); the
    message is kept in that form. *)
Inductive alert :=
| EventIn (threshold : Z) (ev : Dict)   (* "Event in {threshold} minute(s)" *)
| EventStarting (ev : Dict).            (* "Event Starting Now" *)

#[global] Instance alert_eq_dec : EqDecision alert.
Proof. solve_decision. Defined.

Inductive send_outcome :=
| SendOk
| SendFails.

(** The effects of the notifier, in the order they happen. *)
Inductive io_event :=
| Delivered (a : alert)     (* [bot.send_message] returned *)
| SendRaised (a : alert)    (* [bot.send_message] raised *)
| Wrote (keys : list string)  (* the state file was rewritten *)
| WriteRaised               (* the rewrite raised *)
| Logged (e : exn).         (* [logger.error] in a handler *)

#[global] Instance io_event_eq_dec : EqDecision io_event.
Proof. solve_decision. Defined.

(** The process and its surroundings: the tracker with its file, the
    effects so far, and how the next sends and writes will end (a script
    that has run out means success). *)
Record World := mkWorld {
  tracker : NewsTracker;
  trace : list io_event;
  sends : list send_outcome;
  writes : list write_outcome
}.

(** ** A state and exception monad *)
Definition M (A : Type) : Type := World → World * result A.

Definition ret {A} (a : A) : M A := λ w, (w, Ok a).

Definition bind {A B} (m : M A) (k : A → M B) : M B :=
  λ w, match m w with
       | (w', Ok a) => k a w'
       | (w', Raise e) => (w', Raise e)
       end.

(** [try: m  except Exception as e: h e] *)
Definition try_except {A} (m : M A) (h : exn → M A) : M A :=
  λ w, match m w with
       | (w', Ok a) => (w', Ok a)
       | (w', Raise e) => h e w'
       end.

Definition lift {A} (r : result A) : M A := λ w, (w, r).

Notation "x <- c ;; k" := (bind c (λ x, k))
  (at level 100, c at next level, right associativity).
Notation "c ;; k" := (bind c (λ _, k))
  (at level 100, right associativity).

Definition emit (e : io_event) (w : World) : World :=
  mkWorld (tracker w) (trace w ++ [e]) (sends w) (writes w).

(** [await bot.send_message(...)] *)
Definition send_message (a : alert) : M unit :=
  λ w, let w' := mkWorld (tracker w) (trace w) (tail (sends w)) (writes w) in
       match head (sends w) with
       | Some SendFails => (emit (SendRaised a) w', Raise TelegramError)
       | _ => (emit (Delivered a) w', Ok tt)
       end.

(** [news_tracker.is_news_sent(k)] *)
Definition is_sent (k : string) : M bool :=
  λ w, (w, Ok (is_news_sent k (tracker w))).

(** [news_tracker.mark_as_sent(k)] *)
Definition mark_sent (k : string) : M unit :=
  λ w, let o := default WriteOk (head (writes w)) in
       let '(t, r) := mark_as_sent k o (tracker w) in
       let e := match o with
                | WriteOk => Wrote (elements (sent_news t))
                | _ => WriteRaised
                end in
       (emit e (mkWorld t (trace w) (sends w) (tail (writes w))), r).

(** [logger.error(...)] *)
Definition log_error (e : exn) : M unit :=
  λ w, (emit (Logged e) w, Ok tt).

(** ** Keys *)

(** [f"{n}"] for an integer. *)
Definition str (n : Z) : string := NilZero.string_of_int (Z.to_int n).

Definition notification_id (ev : Dict) (threshold : Z) : string :=
  ev_id ev +:+ "_t" +:+ str threshold.

Definition started_id (ev : Dict) : string :=
  ev_id ev +:+ "_started".

Definition alert_key (a : alert) : string :=
  match a with
  | EventIn threshold ev => notification_id ev threshold
  | EventStarting ev => started_id ev
  end.

(** ** Minutes until the event *)

(** [(d - now).total_seconds() / 60].  The quotient is exact here.  Python
    rounds it to a double, twice; the delay is a whole number of
    microseconds and the bounds it is compared with are whole minutes, which
    a double holds exactly, so a delay that is not on a bound is at least
    1/60000000 of a minute away from it, far more than the rounding moves
    it: every comparison below comes out as on the exact quotient. *)
Definition total_seconds (us : Z) : Q := Qmake us 1000000.

Definition minutes_until (d now : datetime) : Q :=
  Qdiv (total_seconds (sub_us d now)) (inject_Z 60).

(** [time_diff = (event['datetime'] - now).total_seconds() / 60]; a
    dictionary without ['datetime'] raises [KeyError]. *)
Definition time_diff (ev : Dict) (now : datetime) : result Q :=
  match ev_datetime ev with
  | None => Raise KeyError
  | Some d => Ok (minutes_until d now)
  end.

Definition thresholds : list Z := [60; 30; 15; 5; 1].

(** [threshold - 1 <= time_diff <= threshold] *)
Definition due (threshold : Z) (td : Q) : bool :=
  Qle_bool (inject_Z (threshold - 1)) td && Qle_bool td (inject_Z threshold).

(** [0 <= time_diff < 1] *)
Definition starting (td : Q) : bool :=
  Qle_bool (inject_Z 0) td && negb (Qle_bool (inject_Z 1) td).

(** ** [check_upcoming_news] *)

(** The body of [for threshold in thresholds]. *)
Definition threshold_step (ev : Dict) (td : Q) (threshold : Z) : M unit :=
  let notification_id := notification_id ev threshold in
  sent <- is_sent notification_id ;;
  if due threshold td && negb sent then
    send_message (EventIn threshold ev) ;;
    mark_sent notification_id
  else ret tt.

Fixpoint thresholds_loop (ev : Dict) (td : Q) (ths : list Z) : M unit :=
  match ths with
  | [] => ret tt
  | threshold :: rest =>
      threshold_step ev td threshold ;; thresholds_loop ev td rest
  end.

(** The "News started" part. *)
Definition started_step (ev : Dict) (td : Q) : M unit :=
  sent <- is_sent (started_id ev) ;;
  if starting td && negb sent then
    send_message (EventStarting ev) ;;
    mark_sent (started_id ev)
  else ret tt.

(** The inner [try] block, for one event. *)
Definition process_event (ev : Dict) (now : datetime) : M unit :=
  td <- lift (time_diff ev now) ;;
  thresholds_loop ev td thresholds ;;
  started_step ev td.

(** One turn of [for event in upcoming_events]: the inner handler logs and
    goes on to the next event. *)
Definition check_event (ev : Dict) (now : datetime) : M unit :=
  try_except (process_event ev now) log_error.

Fixpoint events_loop (evs : list Dict) (now : datetime) : M unit :=
  match evs with
  | [] => ret tt
  | ev :: rest => check_event ev now ;; events_loop rest now
  end.

(** [check_upcoming_news()].  [feed] is what the fetch returns,
    [now_sel] the clock read inside [get_upcoming_events] and [now] the
    clock read after it. *)
Definition check_upcoming_news (currencies : list string) (feed : list Dict)
    (now_sel now : datetime) : M unit :=
  try_except
    (let upcoming_events := get_upcoming_events 2 feed currencies now_sel in
     events_loop upcoming_events now)
    log_error.

(** The send followed by the mark, as both notifications do it. *)
Definition notify (a : alert) : M unit :=
  send_message a ;; mark_sent (alert_key a).

(** ** The life of the program: checks, restarts and deaths of the process *)

(** The first effect of [m] run from [w]. *)
Definition first_effect {A} (m : M A) (w : World) : option io_event :=
  head (drop (List.length (trace w)) (trace (fst (m w)))).

(** The process can die at any moment.  One moment matters for the
    notifications: between [await bot.send_message(...)] and
    [news_tracker.mark_as_sent(...)], when the message is out and its key
    is nowhere.  [events_until_kill] is the event loop of a process that
    dies there, at the first message of the check that goes out.  The
    turn of an event begins with comparisons and membership tests, which
    have no effect, so the first effect of a turn is its first send: when
    that send returns, the loop stops with the message delivered and
    nothing marked; a turn that delivers nothing runs as usual. *)
Fixpoint events_until_kill (evs : list Dict) (now : datetime) (w : World)
    : World :=
  match evs with
  | [] => w
  | ev :: rest =>
      match first_effect (check_event ev now) w with
      | Some (Delivered a) => fst (send_message a w)
      | _ => events_until_kill rest now (fst (check_event ev now w))
      end
  end.

Definition killed_check (currencies : list string) (feed : list Dict)
    (now_sel now : datetime) (w : World) : World :=
  events_until_kill (get_upcoming_events 2 feed currencies now_sel) now w.

Inductive step :=
| CheckNews (feed : list Dict) (now_sel now : datetime)
| RestartProcess
| KilledCheck (feed : list Dict) (now_sel now : datetime).

(** A restart builds a new [NewsTracker] from the file; what was sent and
    the surroundings stay.  When the file cannot be read the module fails
    to load and the program does nothing more.  [RestartProcess] is a
    restart between two checks; [KilledCheck] is a check during which the
    process dies as [killed_check] says, followed by the start of a new
    process. *)
Fixpoint run (currencies : list string) (steps : list step) (w : World)
    : World :=
  match steps with
  | [] => w
  | CheckNews feed now_sel now :: rest =>
      run currencies rest
          (fst (check_upcoming_news currencies feed now_sel now w))
  | RestartProcess :: rest =>
      match init (disk (tracker w)) with
      | Ok t => run currencies rest (mkWorld t (trace w) (sends w) (writes w))
      | Raise _ => w
      end
  | KilledCheck feed now_sel now :: rest =>
      let w1 := killed_check currencies feed now_sel now w in
      match init (disk (tracker w1)) with
      | Ok t =>
          run currencies rest (mkWorld t (trace w1) (sends w1) (writes w1))
      | Raise _ => w1
      end
  end.

Definition killed (s : step) : bool :=
  match s with
  | KilledCheck _ _ _ => true
  | _ => false
  end.

(** No process dies inside a check: every restart is between two
    checks. *)
Definition between_checks (steps : list step) : Prop :=
  Forall (λ s, killed s = false) steps.

(** The process right after a start on file [f]. *)
Definition boot (f : file) (ss : list send_outcome) (ws : list write_outcome)
    : result World :=
  match init f with
  | Ok t => Ok (mkWorld t [] ss ws)
  | Raise e => Raise e
  end.

(** ** Observations on traces *)

(** The part of the trace that [m] adds when run from [w]. *)
Definition emitted {A} (m : M A) (w : World) : list io_event :=
  drop (List.length (trace w)) (trace (fst (m w))).

(** The alert was handed to [bot.send_message]. *)
Definition attempted (a : alert) (l : list io_event) : Prop :=
  Delivered a ∈ l ∨ SendRaised a ∈ l.

Definition delivered_key (e : io_event) : option string :=
  match e with
  | Delivered a => Some (alert_key a)
  | _ => None
  end.

(** How many times a notification with key [k] reached the channel. *)
Definition deliveries (k : string) (l : list io_event) : nat :=
  List.length (filter (λ e, delivered_key e = Some k) l).

(** ** Invariants *)

(** [m] keeps [P]. *)
Definition pres {A} (P : World → Prop) (m : M A) : Prop :=
  ∀ w, P w → P (fst (m w)).

(** Within one process: a key that was delivered is in the set. *)
Definition once_in_memory (w : World) : Prop :=
  ∀ k, (deliveries k (trace w) ≤ 1)%nat
       ∧ (k ∉ sent_news (tracker w) → deliveries k (trace w) = 0%nat).

(** Across restarts, while the writes succeed: a key that was delivered is
    in the set and in the file. *)
Definition once_on_disk (w : World) : Prop :=
  Forall (eq WriteOk) (writes w)
  ∧ ∀ k, deliveries k (trace w) = 0%nat
         ∨ (deliveries k (trace w) = 1%nat
            ∧ k ∈ sent_news (tracker w)
            ∧ k ∈ stored_keys (disk (tracker w))).

(** A key in the set and in the file, with [n] deliveries so far. *)
Definition settled (k : string) (n : nat) (w : World) : Prop :=
  deliveries k (trace w) = n
  ∧ k ∈ sent_news (tracker w)
  ∧ (k ∈ stored_keys (disk (tracker w)) ∨ disk (tracker w) = Garbage).

End Notifier.

(* ===================================================================== *)
(** * Sample data                                                         *)
(* ===================================================================== *)

Module Samples.
Import Calendar Events Store Notifier.

(** Four normalized events of one evening. *)
Definition cpi : Dict :=
  mkDict "Nov 05" "07:00PM" "USD" (VInt 3) "CPI m/m" "0.3%" "N/A"
         "Nov 05_07:00PM_USD_CPI m/m" None.

Definition gdp : Dict :=
  mkDict "Nov 05" "07:00PM" "GBP" (VInt 2) "GDP q/q" "" "0.1%"
         "Nov 05_07:00PM_GBP_GDP q/q" None.

Definition pmi : Dict :=
  mkDict "Nov 05" "07:00PM" "EUR" (VInt 1) "Services PMI" "50.1" "49.8"
         "Nov 05_07:00PM_EUR_Services PMI" None.

Definition rate : Dict :=
  mkDict "Nov 05" "06:30PM" "CAD" (VInt 3) "Overnight Rate" "N/A" ""
         "Nov 05_06:30PM_CAD_Overnight Rate" None.

Definition feed : list Dict := [cpi; gdp; pmi; rate].

(** 19:00 on 5 November 2026, and moments before it. *)
Definition at_19_00 : datetime := mkDatetime 2026 11 5 19 0 0 0.
Definition at_18_00_30 : datetime := mkDatetime 2026 11 5 18 0 30 0.
Definition at_18_00_31 : datetime := mkDatetime 2026 11 5 18 0 31 0.
Definition at_18_01_00 : datetime := mkDatetime 2026 11 5 18 1 0 0.
Definition at_18_31_00 : datetime := mkDatetime 2026 11 5 18 31 0 0.
Definition at_18_05_30 : datetime := mkDatetime 2026 11 5 18 5 30 0.
Definition at_18_59_30 : datetime := mkDatetime 2026 11 5 18 59 30 0.

(** The first event as [get_upcoming_events] hands it to the notifier. *)
Definition cpi_upcoming : Dict := set_datetime at_19_00 (enrich cpi).

(** A process that has just started on a missing file. *)
Definition fresh (ss : list send_outcome) (ws : list write_outcome) : World :=
  mkWorld (mkTracker ∅ Absent) [] ss ws.

End Samples.

(* ===================================================================== *)
(** * Text for the channel: [escape_markdown]                             *)
(* ===================================================================== *)

Module Markdown.

(** The characters that [escape_markdown] escapes, in the order of the
    source. *)
Definition special_chars : list ascii :=
  ["_"; "*"; "["; "]"; "("; ")"; "~"; "`"; ">"; "#"; "+"; "-"; "="; "|";
   "{"; "}"; "."; "!"]%char.

Definition backslash : ascii := "\"%char.

(** [text.replace(c, rep)] for a pattern of one character. *)
Fixpoint replace_char (c : ascii) (rep : string) (text : string) : string :=
  match text with
  | EmptyString => EmptyString
  | String x rest =>
      if Ascii.eqb x c then rep +:+ replace_char c rep rest
      else String x (replace_char c rep rest)
  end.

(** [escape_markdown(text)]: one [replace] per special character.  Strings
    are byte strings here; the special characters are ASCII, and in UTF-8
    an ASCII byte is never part of another character, so the bytes of the
    result are those of the Python string. *)
Definition escape_markdown (text : string) : string :=
  if String.eqb text "" then ""
  else fold_left
         (λ text char,
            replace_char char (String backslash (String char "")) text)
         special_chars text.

(** One pass over the text that puts a backslash before the characters of
    [cs] and copies the others: what the replacements amount to. *)
Fixpoint escape_pass (cs : list ascii) (text : string) : string :=
  match text with
  | EmptyString => EmptyString
  | String x rest =>
      if bool_decide (x ∈ cs)
      then String backslash (String x (escape_pass cs rest))
      else String x (escape_pass cs rest)
  end.

(** The number of characters of [text] that are in [cs]. *)
Fixpoint count_in (cs : list ascii) (text : string) : nat :=
  match text with
  | EmptyString => 0%nat
  | String x rest =>
      ((if bool_decide (x ∈ cs) then 1 else 0) + count_in cs rest)%nat
  end.

(** Every character of [cs] in [text] stands right after a backslash. *)
Fixpoint guarded (cs : list ascii) (prev : option ascii) (text : string)
    : Prop :=
  match text with
  | EmptyString => True
  | String x rest =>
      (x ∈ cs → prev = Some backslash) ∧ guarded cs (Some x) rest
  end.

End Markdown.

(* ===================================================================== *)
(** * The feed: [ForexFactoryCalendar]                                    *)
(* ===================================================================== *)

Module Feed.
Import Calendar Events.

(** What the constructor of [datetime] checks: the values that the
    library hands out satisfy it. *)
Definition valid (d : datetime) : Prop :=
  1 ≤ year d ≤ 9999 ∧ 1 ≤ month d ≤ 12
  ∧ 1 ≤ day d ≤ days_in_month (year d) (month d)
  ∧ 0 ≤ hour d ≤ 23 ∧ 0 ≤ minute d ≤ 59 ∧ 0 ≤ second d ≤ 59
  ∧ 0 ≤ microsecond d ≤ 999999.

(** ** [strftime('%b %d')] and [strftime('%I:%M%p')] *)

Definition digit_char (k : Z) : ascii := ascii_of_N (Z.to_N (48 + k)).

(** A number below 100 on two digits: [%d], [%I] and [%M]. *)
Definition pad2 (n : Z) : string :=
  String (digit_char (n / 10)) (String (digit_char (n mod 10)) "").

(** [%b] *)
Definition month_abbr (m : Z) : string :=
  nth (Z.to_nat (m - 1)) month_names "".

Definition strftime_b_d (d : datetime) : string :=
  month_abbr (month d) +:+ " " +:+ pad2 (day d).

(** The hour of the 12-hour clock, [%I]. *)
Definition hour12 (h : Z) : Z := if h mod 12 =? 0 then 12 else h mod 12.

Definition strftime_I_M_p (d : datetime) : string :=
  pad2 (hour12 (hour d)) +:+ ":" +:+ pad2 (minute d)
  +:+ (if hour d <? 12 then "AM" else "PM").

(** ** [_process_events] *)

(** A record of the feed: a JSON object whose values are strings.  [None]
    is a key that the object does not have. *)
Record Raw := mkRaw {
  raw_date : option string;
  raw_country : option string;
  raw_impact : option string;
  raw_title : option string;
  raw_forecast : option string;
  raw_previous : option string
}.

(** [impact_map.get(s, 1)] with
    [impact_map = {'Low': 1, 'Medium': 2, 'High': 3, 'Holiday': 0}]. *)
Definition impact_of (s : string) : Z :=
  if String.eqb s "Low" then 1
  else if String.eqb s "Medium" then 2
  else if String.eqb s "High" then 3
  else if String.eqb s "Holiday" then 0
  else 1.

(** The dictionary [event_data], with its ['id']. *)
Definition event_data (event_date : datetime) (country impact title : string)
    (forecast previous : option string) : Dict :=
  let date := strftime_b_d event_date in
  let time := strftime_I_M_p event_date in
  mkDict date time country (VInt (impact_of impact)) title
         (default "N/A" forecast) (default "N/A" previous)
         (date +:+ "_" +:+ time +:+ "_" +:+ country +:+ "_" +:+ title)
         None.

Section Process.
(** [datetime.fromisoformat(s.replace('Z', '+00:00')).astimezone(tz)]: the
    local time of the zone, or [None] when the library raises. *)
Variable parse_local : string → option datetime.

(** The inner [try] block for one record; [None] is an exception, which
    the handler logs before the loop goes on. *)
Definition format_event (event : Raw) : option Dict :=
  date ← raw_date event;
  event_date ← parse_local date;
  country ← raw_country event;
  impact ← raw_impact event;
  title ← raw_title event;
  Some (event_data event_date country impact title
                   (raw_forecast event) (raw_previous event)).

Fixpoint process_loop (events : list Raw) (formatted_events : list Dict)
    : list Dict :=
  match events with
  | [] => formatted_events
  | event :: rest =>
      match format_event event with
      | Some event_data => process_loop rest (formatted_events ++ [event_data])
      | None => process_loop rest formatted_events
      end
  end.

Definition process_events (events : list Raw) : list Dict :=
  process_loop events [].

(** [get_calendar]: [response] is what [session.get], [raise_for_status]
    and [response.json()] give, [None] when one of them raises. *)
Definition get_calendar (response : option (list Raw)) : list Dict :=
  match response with
  | Some events => process_events events
  | None => []
  end.

(** [get_forex_events] and [scrape_forex_factory] hand the list on. *)
Definition get_forex_events (response : option (list Raw)) : list Dict :=
  get_calendar response.

Definition scrape_forex_factory (response : option (list Raw)) : list Dict :=
  get_forex_events response.

End Process.

End Feed.

(* ===================================================================== *)
(** * What reaches the channel                                            *)
(* ===================================================================== *)

Module Channel.
Import Events Store Notifier.

(** The file holds no key that the set in memory lacks, or it cannot be
    read. *)
Definition file_within_memory (t : NewsTracker) : Prop :=
  disk t = Garbage ∨ stored_keys (disk t) ⊆ sent_news t.

(** The event that an alert is about. *)
Definition alert_event (a : alert) : Dict :=
  match a with
  | EventIn _ ev => ev
  | EventStarting ev => ev
  end.

(** The kind of an alert: the threshold, or [None] for the started
    notification. *)
Definition alert_kind (a : alert) : option Z :=
  match a with
  | EventIn threshold _ => Some threshold
  | EventStarting _ => None
  end.

(** The alert that an effect handed to [bot.send_message], if it is a
    send. *)
Definition handed (e : io_event) : option alert :=
  match e with
  | Delivered a => Some a
  | SendRaised a => Some a
  | _ => None
  end.

(** The alerts handed to [bot.send_message], in the order of the calls. *)
Definition alerts_of (l : list io_event) : list alert := omap handed l.

(** The job runs every five minutes ([minutes=5] in [main]), counted in
    microseconds. *)
Definition check_interval : Z := 5 * 60 * 1000000.

End Channel.

(* ===================================================================== *)
(** * The command [/upcoming] and the weekly schedule                     *)
(* ===================================================================== *)

Module Commands.
Import Calendar Events.

(** What [message.answer] is called with.  The text of the list is the
    header with the number of hours, followed by
    [format_event_message(event)] for each event in order; it is kept as
    the number and the events. *)
Inductive reply :=
| PermissionDenied
| UpcomingEvents (hours : Z) (events : list Dict)
| NoUpcomingEvents
| InvalidHours
| FetchingError.

#[global] Instance reply_eq_dec : EqDecision reply.
Proof. solve_decision. Defined.

Section Upcoming.
(** [int(s)] on a string; [None] is [ValueError]. *)
Variable int : string → option Z.

(** [int(parts[1]) if len(parts) > 1 else 24] *)
Definition requested_hours (parts : list string) : option Z :=
  match parts with
  | _ :: arg :: _ => int arg
  | _ => Some 24
  end.

(** [cmd_upcoming(message)]: the calls of [message.answer], in order.
    [parts] is [message.text.split()]; [answer_raises] says whether the
    answer inside the [try] block raises, which brings the last handler
    in. *)
Definition cmd_upcoming (from_user_id admin_id : Z) (parts : list string)
    (feed : list Dict) (currencies : list string) (now : datetime)
    (answer_raises : bool) : list reply :=
  if negb (from_user_id =? admin_id) then [PermissionDenied]
  else
    match requested_hours parts with
    | None => [InvalidHours]
    | Some hours =>
        let hours := Z.min (Z.max hours 1) 72 in
        let upcoming_events :=
          get_upcoming_events hours feed currencies now in
        let answer :=
          match upcoming_events with
          | [] => NoUpcomingEvents
          | _ => UpcomingEvents hours upcoming_events
          end in
        if answer_raises then [answer; FetchingError] else [answer]
    end.

End Upcoming.

(** ** [send_weekly_schedule] *)

(** The pieces that the loop appends to [message]: the title, a header
    with a date, and [format_event_message(event)] for an event. *)
Inductive piece :=
| Title
| DateHeader (date : string)
| Entry (ev : Dict).

#[global] Instance piece_eq_dec : EqDecision piece.
Proof. solve_decision. Defined.

Fixpoint weekly_loop (events : list Dict) (current_date : option string)
    (message : list piece) : list piece :=
  match events with
  | [] => message
  | event :: rest =>
      if bool_decide (Some (ev_date event) ≠ current_date)
      then weekly_loop rest (Some (ev_date event))
                       (message ++ [DateHeader (ev_date event); Entry event])
      else weekly_loop rest current_date (message ++ [Entry event])
  end.

(** The message that [send_weekly_schedule] hands to [bot.send_message];
    [None] when it sends nothing. *)
Definition weekly_message (feed : list Dict) (currencies : list string)
    : option (list piece) :=
  match filter_events (seq 0 (List.length feed)) (Some currencies) feed with
  | None => None
  | Some (refs, h) =>
      match mapM (getobj h) refs with
      | None => None
      | Some [] => None
      | Some filtered_events => Some (weekly_loop filtered_events None [Title])
      end
  end.

(** The events of a message, in order. *)
Definition entries_of (message : list piece) : list Dict :=
  omap (λ p, match p with Entry ev => Some ev | _ => None end) message.

(** The dates of the headers of a message, in order. *)
Definition headers_of (message : list piece) : list string :=
  omap (λ p, match p with DateHeader s => Some s | _ => None end) message.

(** Every event stands under a header with its date, and a header is
    there only where the date changes; [current] is the date of the last
    header before the pieces. *)
Fixpoint under_dates (current : option string) (pieces : list piece) : Prop :=
  match pieces with
  | [] => True
  | Title :: _ => False
  | DateHeader s :: rest => current ≠ Some s ∧ under_dates (Some s) rest
  | Entry ev :: rest => current = Some (ev_date ev) ∧ under_dates current rest
  end.

(** The equal elements of a list stand together. *)
Fixpoint grouped (dates : list string) : Prop :=
  match dates with
  | [] => True
  | x :: rest => (x ∈ rest → head rest = Some x) ∧ grouped rest
  end.

End Commands.

(* ===================================================================== *)
(** * Properties of the notification state                                *)
(* ===================================================================== *)

Section StoreFacts.
Import Store.

Implicit Types (k : string) (t : NewsTracker) (o : write_outcome).

Lemma save_keeps_memory o t :
  sent_news (fst (save_sent_news o t)) = sent_news t.
Proof. by destruct o. Qed.

Lemma mark_memory k o t :
  sent_news (fst (mark_as_sent k o t)) = {[k]} ∪ sent_news t.
Proof. unfold mark_as_sent. by rewrite save_keeps_memory. Qed.

Lemma mark_result k o t :
  snd (mark_as_sent k o t) = if o is WriteOk then Ok tt else Raise OSError.
Proof. by destruct o. Qed.

Lemma mark_disk k o t :
  disk (fst (mark_as_sent k o t)) =
    match o with
    | WriteOk => Json (elements ({[k]} ∪ sent_news t))
    | OpenFails => disk t
    | DumpFails => Garbage
    end.
Proof. by destruct o. Qed.

Lemma run_op_mono op t : sent_news t ⊆ sent_news (run_op op t).
Proof.
  destruct op as [k|k o| |o]; simpl; try done.
  - rewrite mark_memory. set_solver.
  - by rewrite save_keeps_memory.
Qed.

Lemma run_ops_mono ops t : sent_news t ⊆ sent_news (run_ops ops t).
Proof.
  revert t. induction ops as [|op ops IH]; intros t; simpl; [done|].
  etrans; [apply (run_op_mono op)|apply IH].
Qed.

(** C6. [mark_as_sent] is idempotent: a second call with the same key
    leaves the set in memory as the first call left it, whatever the two
    writes did, and after two successful calls the tracker, file included,
    is the one that a single successful call gives. *)
Theorem mark_as_sent_idempotent k t o1 o2 :
  sent_news (fst (mark_as_sent k o2 (fst (mark_as_sent k o1 t))))
    = sent_news (fst (mark_as_sent k o1 t))
  ∧ fst (mark_as_sent k WriteOk (fst (mark_as_sent k WriteOk t)))
    = fst (mark_as_sent k WriteOk t)
  ∧ stored_keys (disk (fst (mark_as_sent k WriteOk
                              (fst (mark_as_sent k WriteOk t)))))
    = stored_keys (disk (fst (mark_as_sent k WriteOk t))).
Proof.
  assert (E : ({[k]} ∪ ({[k]} ∪ sent_news t) : gset string)
              = {[k]} ∪ sent_news t)
    by (by rewrite (assoc_L (∪)), union_idemp_L).
  split; [|split].
  - rewrite !mark_memory. exact E.
  - unfold mark_as_sent; simpl. by rewrite E.
  - unfold mark_as_sent; simpl. by rewrite E.
Qed.

(** C7. Round trip: after a successful save, a tracker built on the file
    holds exactly the set that was saved; on a missing file it starts
    empty. *)
Theorem save_load_roundtrip (s : gset string) (f : file) :
  load_sent_news (disk (fst (save_sent_news WriteOk (mkTracker s f)))) = Ok s
  ∧ init (disk (fst (save_sent_news WriteOk (mkTracker s f))))
    = Ok (mkTracker s (Json (elements s)))
  ∧ load_sent_news Absent = Ok ∅
  ∧ init Absent = Ok (mkTracker ∅ Absent).
Proof.
  unfold init; simpl. by rewrite list_to_set_elements_L.
Qed.

(** A key of the set that is in the file stays in the file, as long as the
    file can be read at all. *)
Lemma run_op_keeps_file op t k :
  k ∈ sent_news t →
  k ∈ stored_keys (disk t) ∨ disk t = Garbage →
  k ∈ stored_keys (disk (run_op op t)) ∨ disk (run_op op t) = Garbage.
Proof.
  intros Hk Hd. destruct op as [k'|k' o| |o]; simpl; try done.
  - rewrite mark_disk. destruct o; [left|done|by right].
    simpl. rewrite list_to_set_elements_L, elem_of_union. by right.
  - destruct o; simpl; [left|done|by right].
    by rewrite list_to_set_elements_L.
Qed.

Lemma run_ops_keeps_file ops t k :
  k ∈ sent_news t →
  k ∈ stored_keys (disk t) ∨ disk t = Garbage →
  k ∈ stored_keys (disk (run_ops ops t)) ∨ disk (run_ops ops t) = Garbage.
Proof.
  revert t. induction ops as [|op ops IH]; intros t Hk Hd; simpl; [done|].
  apply IH; [by apply (run_op_mono op)|by apply run_op_keeps_file].
Qed.

Lemma run_state_ops_no_load (ops : list state_op) t k :
  Load ∉ ops → k ∈ sent_news t → k ∈ sent_news (run_state_ops ops t).
Proof.
  revert t. induction ops as [|[k'|k' o|] ops IH]; intros t Hno Hk;
    cbn [run_state_ops].
  - done.
  - apply IH; [|done]. intros H. apply Hno, elem_of_cons. by right.
  - apply IH; [intros H; apply Hno, elem_of_cons; by right|].
    rewrite mark_memory. apply elem_of_union. by right.
  - exfalso. apply Hno, elem_of_cons. by left.
Qed.

Lemma run_state_ops_on_file (ops : list state_op) t k :
  k ∈ sent_news t →
  k ∈ stored_keys (disk t) ∨ disk t = Garbage →
  k ∈ sent_news (run_state_ops ops t).
Proof.
  revert t. induction ops as [|[k'|k' o|] ops IH]; intros t Hk Hd;
    cbn [run_state_ops].
  - done.
  - by apply IH.
  - apply IH.
    + rewrite mark_memory. apply elem_of_union. by right.
    + rewrite mark_disk. destruct o; [left|done|by right].
      cbn [stored_keys]. rewrite list_to_set_elements_L.
      apply elem_of_union. by right.
  - unfold init. destruct (disk t) as [|keys|] eqn:E; cbn [load_sent_news].
    + destruct Hd as [Hd|Hd]; [|done]. by apply not_elem_of_empty in Hd.
    + destruct Hd as [Hd|Hd]; [|done]. apply IH; [done|by left].
    + done.
Qed.

(** C9, as the code has it.  No method removes a key: a key that is in the
    sent set of a tracker is in it after every sequence of
    [is_news_sent], [mark_as_sent], [_save_sent_news] calls and bare
    [_load_sent_news] reads on that tracker, whether the writes succeed or
    not.  The load that the program performs builds the tracker anew from
    the file and keeps exactly the keys of the file: over sequences with
    such loads a key stays in the set when there is no load, or when the
    key is in the file to begin with; a key that is only in memory is
    gone after the load. *)
Theorem sent_keys_never_removed (ops : list store_op)
    (sops : list state_op) t k :
  k ∈ sent_news t →
  k ∈ sent_news (run_ops ops t)
  ∧ (∀ t', init (disk (run_ops ops t)) = Ok t' →
           (k ∈ sent_news t' ↔ k ∈ stored_keys (disk (run_ops ops t)))
           ∧ (k ∈ stored_keys (disk t) → k ∈ sent_news t'))
  ∧ ((Load ∉ sops) ∨ k ∈ stored_keys (disk t) →
     k ∈ sent_news (run_state_ops sops t)).
Proof.
  intros Hk. split; [by apply (run_ops_mono ops t)|]. split.
  - intros t' Hi.
    assert (Hs : sent_news t' = stored_keys (disk (run_ops ops t))).
    { unfold init in Hi. destruct (disk (run_ops ops t)) as [|keys|];
        cbn in Hi; [| |done]; by injection Hi as <-. }
    split; [by rewrite Hs|]. intros Hd. rewrite Hs.
    destruct (run_ops_keeps_file ops t k Hk (or_introl Hd)) as [Hf|Hf];
      [done|].
    unfold init in Hi. by rewrite Hf in Hi.
  - intros [Hno|Hd].
    + by apply run_state_ops_no_load.
    + apply run_state_ops_on_file; [done|by left].
Qed.

Lemma sent_keys_never_removed_witness :
  let t := mkTracker {["a_t60"]} (Json ["a_t60"]) in
  let ops := [OpMark "b_t5" OpenFails; OpLoad; OpIsSent "c"; OpSave WriteOk] in
  let sops := [MarkSent "b_t5" OpenFails; Load; IsSent "c"] in
  "a_t60" ∈ sent_news t
  ∧ "a_t60" ∈ sent_news (run_ops ops t)
  ∧ init (disk (run_ops ops t))
    = Ok (mkTracker (stored_keys (disk (run_ops ops t)))
                    (disk (run_ops ops t)))
  ∧ "a_t60" ∈ stored_keys (disk (run_ops ops t))
  ∧ "a_t60" ∈ stored_keys (disk t)
  ∧ "a_t60" ∈ sent_news (run_state_ops sops t).
Proof.
  intros t ops sops.
  assert (H : "a_t60" ∈ sent_news t)
    by (apply (bool_decide_unpack _); vm_compute; exact I).
  assert (Hd : "a_t60" ∈ stored_keys (disk t))
    by (apply (bool_decide_unpack _); vm_compute; exact I).
  assert (Hi : init (disk (run_ops ops t))
               = Ok (mkTracker (stored_keys (disk (run_ops ops t)))
                               (disk (run_ops ops t)))) by reflexivity.
  destruct (sent_keys_never_removed ops sops t "a_t60" H) as (A & B & C).
  split; [exact H|]. split; [exact A|]. split; [exact Hi|].
  split; [exact (proj1 (proj1 (B _ Hi)) (proj2 (B _ Hi) Hd))|].
  split; [exact Hd|].
  exact (C (or_intror Hd)).
Defined.

(** C9 does not hold as stated.  A key is marked, the write fails, so the
    key is in the set in memory and not in the file; the load that
    follows builds the set from the file, and the key is no longer a
    member.  The same key written with success survives the load. *)
Lemma key_lost_by_load_after_failed_write :
  "a_t60" ∈ sent_news (run_state_ops [MarkSent "a_t60" OpenFails]
                         (mkTracker ∅ Absent))
  ∧ ("a_t60" ∉ sent_news (run_state_ops [MarkSent "a_t60" OpenFails; Load]
                            (mkTracker ∅ Absent)))
  ∧ init (disk (fst (mark_as_sent "a_t60" OpenFails (mkTracker ∅ Absent))))
    = Ok (mkTracker ∅ Absent)
  ∧ "a_t60" ∈ sent_news (run_state_ops [MarkSent "a_t60" WriteOk; Load]
                           (mkTracker ∅ Absent))
  ∧ ¬ (∀ (sops : list state_op) t k,
         k ∈ sent_news t → k ∈ sent_news (run_state_ops sops t)).
Proof.
  assert (H1 : "a_t60" ∈ sent_news (run_state_ops [MarkSent "a_t60" OpenFails]
                                      (mkTracker ∅ Absent)))
    by (apply (bool_decide_unpack _); vm_compute; exact I).
  assert (H2 : "a_t60" ∉ sent_news
                 (run_state_ops [MarkSent "a_t60" OpenFails; Load]
                    (mkTracker ∅ Absent)))
    by (apply (bool_decide_unpack _); vm_compute; exact I).
  split; [exact H1|]. split; [exact H2|]. split; [reflexivity|]. split.
  - apply (bool_decide_unpack _). vm_compute. exact I.
  - intros H. apply H2.
    exact (H [Load] (run_state_ops [MarkSent "a_t60" OpenFails]
                       (mkTracker ∅ Absent)) "a_t60" H1).
Qed.

(** C10. [mark_as_sent] is not atomic: when the write raises, the call
    raises, the key is already in the set in memory, so [is_news_sent]
    answers [true] from then on, and the failed call did not put the key
    into the file. *)
Theorem mark_as_sent_not_atomic k o t (ops : list store_op) :
  o ≠ WriteOk →
  snd (mark_as_sent k o t) = Raise OSError
  ∧ is_news_sent k (fst (mark_as_sent k o t)) = true
  ∧ is_news_sent k (run_ops ops (fst (mark_as_sent k o t))) = true
  ∧ (k ∉ stored_keys (disk t) →
     k ∉ stored_keys (disk (fst (mark_as_sent k o t)))).
Proof.
  intros Ho.
  assert (Hk : k ∈ sent_news (fst (mark_as_sent k o t)))
    by (rewrite mark_memory; set_solver).
  repeat split.
  - rewrite mark_result. by destruct o.
  - by apply bool_decide_eq_true.
  - apply bool_decide_eq_true. by apply (run_ops_mono ops).
  - rewrite mark_disk. destruct o; [done|done|]. simpl. set_solver.
Qed.

Lemma mark_as_sent_not_atomic_witness :
  OpenFails ≠ WriteOk
  ∧ snd (mark_as_sent "a_t60" OpenFails (mkTracker ∅ (Json []))) = Raise OSError
  ∧ is_news_sent "a_t60"
      (fst (mark_as_sent "a_t60" OpenFails (mkTracker ∅ (Json [])))) = true
  ∧ is_news_sent "a_t60"
      (run_ops [OpIsSent "a_t60"; OpLoad]
         (fst (mark_as_sent "a_t60" OpenFails (mkTracker ∅ (Json []))))) = true
  ∧ ("a_t60" ∉ stored_keys (disk (mkTracker ∅ (Json []))) →
     "a_t60" ∉ stored_keys
        (disk (fst (mark_as_sent "a_t60" OpenFails (mkTracker ∅ (Json [])))))).
Proof.
  assert (H : OpenFails ≠ WriteOk) by discriminate.
  split; [exact H|].
  exact (mark_as_sent_not_atomic "a_t60" OpenFails (mkTracker ∅ (Json []))
           [OpIsSent "a_t60"; OpLoad] H).
Defined.

End StoreFacts.

(* ===================================================================== *)
(** * Properties of [filter_events]                                       *)
(* ===================================================================== *)

Section FilterFacts.
Import Calendar Events.

Implicit Types (h : Heap) (d : Dict) (r : ref).

#[local] Arguments String.append !_ _ / : simpl nomatch.

Lemma string_app_assoc (a b c : string) : (a +:+ b) +:+ c = a +:+ (b +:+ c).
Proof. induction a as [|x a IH]; simpl; congruence. Qed.

(** The title built by the loop body is the one the specification
    describes. *)
Lemma enrich_title d : ev_event (enrich d) = display_title d.
Proof.
  unfold enrich, display_title, values_of; simpl.
  destruct (available (ev_forecast d)), (available (ev_previous d)); simpl;
    try done.
  by rewrite !string_app_assoc.
Qed.

Lemma enrich_fields d :
  ev_date (enrich d) = ev_date d ∧ ev_time (enrich d) = ev_time d
  ∧ ev_currency (enrich d) = ev_currency d ∧ ev_id (enrich d) = ev_id d
  ∧ ev_forecast (enrich d) = ev_forecast d
  ∧ ev_previous (enrich d) = ev_previous d
  ∧ ev_datetime (enrich d) = ev_datetime d
  ∧ ev_impact (enrich d) = VStr (impact_text (ev_impact d)).
Proof. unfold enrich. by destruct (values_of _). Qed.

Lemma alter_last h d (f : Dict → Dict) :
  alter f (List.length h) (h ++ [d]) = h ++ [f d].
Proof.
  replace (List.length h) with (List.length h + 0)%nat by lia.
  by rewrite alter_app_r.
Qed.

Lemma lookup_last h d : (h ++ [d]) !! List.length h = Some d.
Proof. apply lookup_snoc_Some. by right. Qed.

(** One turn of the loop: a kept event is copied to a new address and only
    the copy is written. *)
Lemma filter_step_eq currencies r filtered h d :
  getobj h r = Some d →
  filter_step currencies r filtered h =
    if bool_decide (ev_currency d ∈ currencies)
    then Some (filtered ++ [List.length h], h ++ [enrich d])
    else Some (filtered, h).
Proof.
  intros Hr. unfold filter_step, copy. rewrite Hr; simpl.
  case_bool_decide; [|done]. unfold getobj, setitem.
  rewrite lookup_last; simpl. rewrite alter_last, lookup_last; simpl.
  unfold enrich.
  destruct (values_of (set_impact _ d)) as [|v vs] eqn:E; [done|].
  by rewrite alter_last.
Qed.

Lemma filter_loop_eq currencies refs : ∀ objs filtered h,
  Forall2 (λ r d, getobj h r = Some d) refs objs →
  let kept := filter (λ d, ev_currency d ∈ currencies) objs in
  filter_loop currencies refs filtered h =
    Some (filtered ++ seq (List.length h) (List.length kept),
          h ++ map enrich kept).
Proof.
  induction refs as [|r refs IH]; intros objs filtered h HF; simpl.
  - apply Forall2_nil_inv_l in HF as ->. simpl. by rewrite !app_nil_r.
  - apply Forall2_cons_inv_l in HF as (d & objs' & Hr & HF & ->).
    rewrite (filter_step_eq _ _ _ _ _ Hr). rewrite filter_cons.
    case_bool_decide as Hc; simpl.
    + rewrite decide_True by done. simpl.
      rewrite (IH objs').
      * rewrite length_app; simpl. rewrite <- !app_assoc; simpl.
        by rewrite Nat.add_1_r.
      * eapply Forall2_impl; [exact HF|]. intros r' d' Hr'; simpl in *.
        unfold getobj in *.
        rewrite lookup_app_l; [done|]. by eapply lookup_lt_Some.
    + rewrite decide_False by done. by apply IH.
Qed.

Lemma lookup_fresh_objects h (ds : list Dict) :
  Forall2 (λ r d, getobj (h ++ ds) r = Some d)
          (seq (List.length h) (List.length ds)) ds.
Proof.
  apply Forall2_lookup. intros i. unfold getobj.
  destruct (decide (i < List.length ds)%nat) as [Hi|Hi].
  - rewrite lookup_seq_lt by done.
    destruct (lookup_lt_is_Some_2 ds i Hi) as [d Hd]. rewrite Hd.
    constructor. rewrite lookup_app_r by lia.
    by replace (List.length h + i - List.length h)%nat with i by lia.
  - rewrite lookup_seq_ge by lia. rewrite lookup_ge_None_2 by lia.
    constructor.
Qed.

Lemma filter_events_run h (refs : list ref) (objs : list Dict)
    (currencies : option (list string)) :
  Forall2 (λ r d, getobj h r = Some d) refs objs →
  let kept := filter (λ d, ev_currency d ∈ default default_currencies
                                               currencies) objs in
  filter_events refs currencies h =
    Some (seq (List.length h) (List.length kept), h ++ map enrich kept)
  ∧ mapM (getobj (h ++ map enrich kept))
         (seq (List.length h) (List.length kept)) = Some (map enrich kept).
Proof.
  intros HF kept. split.
  - unfold filter_events. by rewrite (filter_loop_eq _ _ objs).
  - apply mapM_Some_2.
    pose proof (lookup_fresh_objects h (map enrich kept)) as HL.
    by rewrite length_map in HL.
Qed.

(** C5. [filter_events] returns, in their original order, copies of the
    events whose currency is in the allowed set (USD, EUR, CAD when none is
    given); each copy carries the display title with the forecast and
    previous values appended in parentheses when they are present and not
    "N/A", and the impact as text; the dictionaries of the input are left
    as they were. *)
Theorem filter_events_spec h (refs : list ref) (objs : list Dict)
    (currencies : option (list string)) :
  Forall2 (λ r d, getobj h r = Some d) refs objs →
  let allowed := default default_currencies currencies in
  let kept := filter (λ d, ev_currency d ∈ allowed) objs in
  ∃ refs' h',
    filter_events refs currencies h = Some (refs', h')
    ∧ mapM (getobj h') refs' = Some (map enrich kept)
    ∧ kept `sublist_of` objs
    ∧ (∀ d, d ∈ kept ↔ d ∈ objs ∧ ev_currency d ∈ allowed)
    ∧ (∀ d, ev_event (enrich d) = display_title d
            ∧ ev_currency (enrich d) = ev_currency d
            ∧ ev_id (enrich d) = ev_id d)
    ∧ (∀ r d, getobj h r = Some d → getobj h' r = Some d)
    ∧ mapM (getobj h') refs = Some objs.
Proof.
  intros HF allowed kept.
  exists (seq (List.length h) (List.length kept)), (h ++ map enrich kept).
  assert (Hold : ∀ r d, getobj h r = Some d →
                        getobj (h ++ map enrich kept) r = Some d).
  { intros r d Hr. unfold getobj. rewrite lookup_app_l; [done|].
    by eapply lookup_lt_Some. }
  destruct (filter_events_run h refs objs currencies HF) as [Hrun Hout].
  split; [|split; [|split; [|split; [|split; [|split]]]]].
  - exact Hrun.
  - exact Hout.
  - apply sublist_filter.
  - intros d. unfold kept. rewrite list_elem_of_filter. tauto.
  - intros d. split; [apply enrich_title|].
    by destruct (enrich_fields d) as (_ & _ & ? & ? & _).
  - exact Hold.
  - apply mapM_Some_2. eapply Forall2_impl; [exact HF|]. eauto.
Qed.

End FilterFacts.

(* ===================================================================== *)
(** * Properties of [get_upcoming_events]                                 *)
(* ===================================================================== *)

Section SortFacts.
Import Events.
Context {A : Type} (key : A → Z).

Lemma insert_by_perm x l : insert_by key x l ≡ₚ x :: l.
Proof.
  induction l as [|y l IH]; simpl; [done|].
  destruct (key x <=? key y); [done|].
  rewrite IH. apply Permutation_swap.
Qed.

Lemma sort_by_perm l : sort_by key l ≡ₚ l.
Proof.
  induction l as [|x l IH]; simpl; [done|].
  by rewrite insert_by_perm, IH.
Qed.

Lemma insert_by_sorted x l :
  StronglySorted (λ a b, key a ≤ key b) l →
  StronglySorted (λ a b, key a ≤ key b) (insert_by key x l).
Proof.
  induction 1 as [|y l Hl IH Hy]; simpl.
  - repeat constructor.
  - destruct (Z.leb_spec (key x) (key y)) as [Hxy|Hxy].
    + constructor; [by constructor|]. constructor; [done|].
      eapply Forall_impl; [exact Hy|]. simpl. lia.
    + constructor; [done|]. rewrite insert_by_perm.
      constructor; [lia|done].
Qed.

Lemma sort_by_sorted l :
  StronglySorted (λ a b, key a ≤ key b) (sort_by key l).
Proof.
  induction l as [|x l IH]; simpl; [constructor|].
  by apply insert_by_sorted.
Qed.

(** Stability: the elements of one key keep their order. *)
Lemma insert_by_stable t x l :
  filter (λ e, key e = t) (insert_by key x l)
  = filter (λ e, key e = t) (x :: l).
Proof.
  induction l as [|y l IH]; simpl; [done|].
  destruct (Z.leb_spec (key x) (key y)) as [Hxy|Hxy]; [done|].
  rewrite (filter_cons _ y), IH, !(filter_cons _ x), (filter_cons _ y).
  destruct (decide (key y = t)), (decide (key x = t)); try done. lia.
Qed.

Lemma sort_by_stable t l :
  filter (λ e, key e = t) (sort_by key l) = filter (λ e, key e = t) l.
Proof.
  induction l as [|x l IH]; simpl; [done|].
  by rewrite insert_by_stable, !filter_cons, IH.
Qed.

End SortFacts.

Section UpcomingFacts.
Import Calendar Events.

(** The selection, one event at a time. *)
Lemma select_upcoming_cons hours now ev l :
  select_upcoming hours now (ev :: l) =
    match event_date ev now with
    | Some d =>
        if bool_decide (in_window hours now d)
        then set_datetime d ev :: select_upcoming hours now l
        else select_upcoming hours now l
    | None => select_upcoming hours now l
    end.
Proof.
  unfold select_upcoming. cbn [omap list_omap].
  destruct (event_date ev now) as [d|]; cbn [mbind option_bind]; [|done].
  by destruct (bool_decide (in_window hours now d)).
Qed.

Lemma elem_of_select_upcoming hours now l e :
  e ∈ select_upcoming hours now l ↔
  ∃ ev d, ev ∈ l ∧ event_date ev now = Some d
          ∧ 0 ≤ sub_us d now ≤ hours * 3600000000
          ∧ e = set_datetime d ev.
Proof.
  induction l as [|ev l IH].
  - unfold select_upcoming. cbn [omap list_omap]. rewrite elem_of_nil.
    split; [done|]. intros (ev & d & Hev & _). by apply elem_of_nil in Hev.
  - rewrite select_upcoming_cons.
    assert (Hrest : e ∈ select_upcoming hours now l →
              ∃ ev' d, ev' ∈ ev :: l ∧ event_date ev' now = Some d
                       ∧ 0 ≤ sub_us d now ≤ hours * 3600000000
                       ∧ e = set_datetime d ev').
    { intros H. apply IH in H as (ev' & d & Hev & H).
      exists ev', d. split; [|exact H]. apply elem_of_cons. by right. }
    destruct (event_date ev now) as [d|] eqn:Ed.
    + destruct (bool_decide (in_window hours now d)) eqn:Hw.
      * apply bool_decide_eq_true in Hw. rewrite elem_of_cons, IH. split.
        -- intros [->|H]; [|by apply Hrest, IH].
           exists ev, d. split; [apply elem_of_cons; by left|done].
        -- intros (ev' & d' & Hev & Ed' & Hw' & ->).
           apply elem_of_cons in Hev as [->|Hev].
           ++ left. congruence.
           ++ right. by exists ev', d'.
      * apply bool_decide_eq_false in Hw. rewrite IH. split.
        -- intros H. by apply Hrest, IH.
        -- intros (ev' & d' & Hev & Ed' & Hw' & ->).
           apply elem_of_cons in Hev as [->|Hev]; [|by exists ev', d'].
           rewrite Ed in Ed'. injection Ed' as <-. by destruct Hw.
    + rewrite IH. split.
      * intros H. by apply Hrest, IH.
      * intros (ev' & d' & Hev & Ed' & Hw' & ->).
        apply elem_of_cons in Hev as [->|Hev]; [congruence|by exists ev', d'].
Qed.

Lemma upcoming_loop_eq hours now filtered :
  -999999999 ≤ hours / 24 ≤ 999999999 →
  upcoming_loop hours now filtered
  = Some (select_upcoming hours now filtered).
Proof.
  intros Hh.
  assert (Htd : timedelta_hours hours = Some (hours * 3600000000)).
  { unfold timedelta_hours.
    destruct (Z.leb_spec (-999999999) (hours / 24)); [|lia].
    destruct (Z.leb_spec (hours / 24) 999999999); [done|lia]. }
  induction filtered as [|ev l IH]; [done|].
  cbn [upcoming_loop]. rewrite select_upcoming_cons.
  unfold upcoming_step. rewrite Htd.
  destruct (event_date ev now) as [d|]; [|exact IH].
  cbn zeta. unfold in_window.
  destruct (Z.leb_spec 0 (sub_us d now)) as [H0|H0].
  - destruct (Z.leb_spec (sub_us d now) (hours * 3600000000)) as [H1|H1].
    + rewrite bool_decide_eq_true_2 by lia. by rewrite IH.
    + rewrite bool_decide_eq_false_2 by lia. exact IH.
  - rewrite bool_decide_eq_false_2 by lia. exact IH.
Qed.

Lemma get_upcoming_events_eq hours feed currencies now :
  -999999999 ≤ hours / 24 ≤ 999999999 →
  get_upcoming_events hours feed currencies now
  = sort_by datetime_key
      (select_upcoming hours now
         (map enrich (filter (λ d, ev_currency d ∈ currencies) feed))).
Proof.
  intros Hh. unfold get_upcoming_events.
  pose proof (lookup_fresh_objects [] feed) as HF. simpl in HF.
  destruct (filter_events_run feed _ feed (Some currencies) HF) as [-> Hm].
  rewrite Hm. simpl. by rewrite upcoming_loop_eq.
Qed.

(** C4. For a horizon [hours] that [timedelta] can hold,
    [get_upcoming_events] returns exactly the filtered events whose
    computed occurrence time [d] has [0 <= d - now <= hours] hours, each
    with that time under ['datetime'], in ascending order of that time;
    events of equal time keep their order in the feed. *)
Theorem get_upcoming_events_spec hours feed currencies now :
  -999999999 ≤ hours / 24 ≤ 999999999 →
  let filtered := map enrich (filter (λ d, ev_currency d ∈ currencies) feed) in
  let selected := select_upcoming hours now filtered in
  let result := get_upcoming_events hours feed currencies now in
  (∀ e, e ∈ result ↔
        ∃ ev d, ev ∈ filtered ∧ event_date ev now = Some d
                ∧ 0 ≤ sub_us d now ≤ hours * 3600000000
                ∧ e = set_datetime d ev)
  ∧ result ≡ₚ selected
  ∧ StronglySorted (λ a b, datetime_key a ≤ datetime_key b) result
  ∧ (∀ t, filter (λ e, datetime_key e = t) result
          = filter (λ e, datetime_key e = t) selected)
  ∧ Forall (λ e, ∃ d, ev_datetime e = Some d ∧ datetime_key e = to_us d
                      ∧ 0 ≤ to_us d - to_us now ≤ hours * 3600000000)
           result.
Proof.
  intros Hh filtered selected result.
  assert (Hr : result = sort_by datetime_key selected)
    by (by apply get_upcoming_events_eq).
  assert (Hsel : ∀ e, e ∈ selected ↔
            ∃ ev d, ev ∈ filtered ∧ event_date ev now = Some d
                    ∧ 0 ≤ sub_us d now ≤ hours * 3600000000
                    ∧ e = set_datetime d ev)
    by (intros e; apply elem_of_select_upcoming).
  assert (Hp : result ≡ₚ selected) by (rewrite Hr; apply sort_by_perm).
  split; [|split; [|split; [|split]]].
  - intros e. by rewrite Hp.
  - exact Hp.
  - rewrite Hr. apply sort_by_sorted.
  - intros t. rewrite Hr. apply sort_by_stable.
  - apply Forall_forall. intros e He. rewrite Hp in He.
    apply Hsel in He as (ev & d & _ & _ & Hw & ->).
    exists d. unfold sub_us in Hw. split; [done|]. split; [done|]. lia.
Qed.

End UpcomingFacts.

(* ===================================================================== *)
(** * Properties of the notifier                                          *)
(* ===================================================================== *)

Section NotifierFacts.
Import Calendar Events Store Notifier.

Implicit Types (w : World) (a : alert) (ev : Dict) (td : Q) (k : string).

(** ** The comparisons on minutes, as integer inequalities *)

Lemma due_iff t td :
  due t td = true ↔ (inject_Z (t - 1) <= td)%Q ∧ (td <= inject_Z t)%Q.
Proof. unfold due. by rewrite andb_true_iff, !Qle_bool_iff. Qed.

Lemma starting_iff td :
  starting td = true ↔ (inject_Z 0 <= td)%Q ∧ (td < inject_Z 1)%Q.
Proof.
  unfold starting. rewrite andb_true_iff, negb_true_iff, Qle_bool_iff.
  rewrite <- not_true_iff_false, Qle_bool_iff. split.
  - intros [H0 H1]. split; [done|]. by apply Qnot_le_lt.
  - intros [H0 H1]. split; [done|]. by apply Qlt_not_le.
Qed.

Lemma due_Z t (n : Z) (d : positive) :
  due t (Qmake n d) = ((t - 1) * Zpos d <=? n) && (n <=? t * Zpos d).
Proof. unfold due, Qle_bool; simpl. by rewrite !Z.mul_1_r. Qed.

Lemma starting_Z (n : Z) (d : positive) :
  starting (Qmake n d) = (0 <=? n) && negb (Zpos d <=? n).
Proof.
  unfold starting, Qle_bool; simpl. rewrite !Z.mul_1_r.
  by destruct (Z.pos d).
Qed.

(** The windows of the five thresholds do not meet. *)
Lemma due_exclusive td t t' :
  t ∈ thresholds → t' ∈ thresholds →
  due t td = true → due t' td = true → t = t'.
Proof.
  destruct td as [n d]. unfold thresholds. rewrite !due_Z.
  rewrite !elem_of_cons, !elem_of_nil, !andb_true_iff, !Z.leb_le.
  intros Ht Ht' H1 H2.
  destruct Ht as [->|[->|[->|[->|[->|[]]]]]];
    destruct Ht' as [->|[->|[->|[->|[->|[]]]]]]; lia.
Qed.

(** A moment that starts the event is in the window of threshold 1, and
    in no other. *)
Lemma starting_due td : starting td = true → due 1 td = true.
Proof.
  destruct td as [n d]. rewrite starting_Z, due_Z.
  rewrite !andb_true_iff, negb_true_iff, Z.leb_le, Z.leb_gt, !Z.leb_le. lia.
Qed.

(** ** The two notifications *)

Lemma threshold_step_eq ev td t w :
  threshold_step ev td t w =
    if due t td && negb (is_news_sent (notification_id ev t) (tracker w))
    then notify (EventIn t ev) w else (w, Ok tt).
Proof.
  unfold threshold_step, bind, is_sent.
  by destruct (due t td && negb (is_news_sent _ _)).
Qed.

Lemma started_step_eq ev td w :
  started_step ev td w =
    if starting td && negb (is_news_sent (started_id ev) (tracker w))
    then notify (EventStarting ev) w else (w, Ok tt).
Proof.
  unfold started_step, bind, is_sent.
  by destruct (starting td && negb (is_news_sent _ _)).
Qed.

Lemma thresholds_not_due ev td ths w :
  Forall (λ t, due t td = false) ths →
  thresholds_loop ev td ths w = (w, Ok tt).
Proof.
  induction 1 as [|t ths Ht _ IH]; simpl; [done|].
  unfold bind. rewrite threshold_step_eq, Ht. simpl. exact IH.
Qed.

Lemma loop_cons_not_due ev td t ths w :
  due t td = false →
  thresholds_loop ev td (t :: ths) w = thresholds_loop ev td ths w.
Proof.
  intros Ht; simpl. unfold bind. by rewrite threshold_step_eq, Ht.
Qed.

Lemma loop_cons_due ev td t ths w :
  due t td = true → Forall (λ t, due t td = false) ths →
  thresholds_loop ev td (t :: ths) w =
    if is_news_sent (notification_id ev t) (tracker w)
    then (w, Ok tt) else notify (EventIn t ev) w.
Proof.
  intros Ht Hths; simpl. unfold bind. rewrite threshold_step_eq, Ht; simpl.
  destruct (is_news_sent _ _); simpl.
  - by apply thresholds_not_due.
  - destruct (notify _ w) as [w' [[]|e]]; [|done].
    by apply thresholds_not_due.
Qed.

(** The loop over the thresholds comes down to the one threshold whose
    window holds the moment, if there is one. *)
Lemma thresholds_loop_eq ev td w :
  thresholds_loop ev td thresholds w =
    match List.find (λ t, due t td) thresholds with
    | Some t =>
        if is_news_sent (notification_id ev t) (tracker w)
        then (w, Ok tt) else notify (EventIn t ev) w
    | None => (w, Ok tt)
    end.
Proof.
  assert (Hex : ∀ t t', t ∈ thresholds → t' ∈ thresholds → t ≠ t' →
                  due t td = true → due t' td = false).
  { intros t t' Ht Ht' Hne Hd. apply not_true_is_false. intros Hd'.
    by apply Hne, (due_exclusive td). }
  unfold thresholds in *. simpl List.find.
  repeat match goal with
  | |- context [if due ?t td then _ else _] =>
      destruct (due t td) eqn:?;
      [ rewrite loop_cons_due;
        [ reflexivity | assumption
        | repeat constructor;
          (eapply Hex; [ | | | eassumption]; [set_solver|set_solver|lia]) ]
      | rewrite loop_cons_not_due by assumption ]
  end.
  reflexivity.
Qed.

(** What [notify] does, by the outcome of the send and of the write. *)
Lemma notify_run a w :
  notify a w =
    match head (sends w) with
    | Some SendFails =>
        (mkWorld (tracker w) (trace w ++ [SendRaised a])
                 (tail (sends w)) (writes w), Raise TelegramError)
    | _ =>
        let s' := {[alert_key a]} ∪ sent_news (tracker w) in
        match default WriteOk (head (writes w)) with
        | WriteOk =>
            (mkWorld (mkTracker s' (Json (elements s')))
                     (trace w ++ [Delivered a; Wrote (elements s')])
                     (tail (sends w)) (tail (writes w)), Ok tt)
        | OpenFails =>
            (mkWorld (mkTracker s' (disk (tracker w)))
                     (trace w ++ [Delivered a; WriteRaised])
                     (tail (sends w)) (tail (writes w)), Raise OSError)
        | DumpFails =>
            (mkWorld (mkTracker s' Garbage)
                     (trace w ++ [Delivered a; WriteRaised])
                     (tail (sends w)) (tail (writes w)), Raise OSError)
        end
    end.
Proof.
  unfold notify, bind, send_message, mark_sent, emit.
  destruct (head (sends w)) as [[]|]; cbn [trace tracker sends writes];
    try done.
  all: destruct (default WriteOk (head (writes w)));
    cbn [mark_as_sent save_sent_news sent_news disk trace tracker sends
         writes fst snd];
    by rewrite <- app_assoc.
Qed.

(** The first notification of an event: the alert of the threshold whose
    window holds the moment, unless its key is in the set. *)
Lemma process_event_eq ev d now w :
  ev_datetime ev = Some d →
  let td := minutes_until d now in
  process_event ev now w =
    match (match List.find (λ t, due t td) thresholds with
           | Some t =>
               if is_news_sent (notification_id ev t) (tracker w)
               then (w, Ok tt) else notify (EventIn t ev) w
           | None => (w, Ok tt)
           end) with
    | (w1, Ok _) =>
        if starting td && negb (is_news_sent (started_id ev) (tracker w1))
        then notify (EventStarting ev) w1 else (w1, Ok tt)
    | (w1, Raise e) => (w1, Raise e)
    end.
Proof.
  intros Hd td. unfold process_event, time_diff, lift. rewrite Hd.
  unfold bind at 1. fold td.
  unfold bind. rewrite thresholds_loop_eq.
  destruct (match List.find _ _ with Some _ => _ | None => _ end)
    as [w1 [[]|e]]; [|done].
  apply started_step_eq.
Qed.

(** ** Reading a trace *)

Lemma attempted_nil a : attempted a [] ↔ False.
Proof. unfold attempted. rewrite !elem_of_nil. tauto. Qed.

Lemma attempted_delivered a b l :
  attempted a (Delivered b :: l) ↔ a = b ∨ attempted a l.
Proof.
  unfold attempted. rewrite !elem_of_cons. split.
  - intros [[H|H]|[H|H]]; try discriminate; [left; congruence|tauto..].
  - intros [->|[H|H]]; tauto.
Qed.

Lemma attempted_raised a b l :
  attempted a (SendRaised b :: l) ↔ a = b ∨ attempted a l.
Proof.
  unfold attempted. rewrite !elem_of_cons. split.
  - intros [[H|H]|[H|H]]; try discriminate; [tauto|left; congruence|tauto].
  - intros [->|[H|H]]; tauto.
Qed.

Lemma attempted_other a e l :
  (∀ b, e ≠ Delivered b) → (∀ b, e ≠ SendRaised b) →
  attempted a (e :: l) ↔ attempted a l.
Proof.
  intros H1 H2. unfold attempted. rewrite !elem_of_cons. split.
  - intros [[H|H]|[H|H]]; try tauto; symmetry in H;
      first [by apply H1 in H | by apply H2 in H].
  - tauto.
Qed.

Lemma attempted_wrote a keys l :
  attempted a (Wrote keys :: l) ↔ attempted a l.
Proof. by apply attempted_other. Qed.

Lemma attempted_write_raised a l :
  attempted a (WriteRaised :: l) ↔ attempted a l.
Proof. by apply attempted_other. Qed.

Lemma attempted_logged a e l :
  attempted a (Logged e :: l) ↔ attempted a l.
Proof. by apply attempted_other. Qed.

Lemma event_in_eq t t' ev ev' :
  EventIn t ev = EventIn t' ev' ↔ t = t' ∧ ev = ev'.
Proof. split; [by intros [= -> ->]|by intros [-> ->]]. Qed.

Lemma event_in_starting t ev ev' : EventIn t ev = EventStarting ev' ↔ False.
Proof. done. Qed.

Lemma starting_event_in t ev ev' : EventStarting ev' = EventIn t ev ↔ False.
Proof. done. Qed.

Ltac read_trace :=
  repeat (rewrite attempted_nil || rewrite attempted_delivered
          || rewrite attempted_raised || rewrite attempted_wrote
          || rewrite attempted_write_raised || rewrite attempted_logged
          || rewrite event_in_eq || rewrite event_in_starting
          || rewrite starting_event_in).

Ltac red_world :=
  cbn [fst snd tracker trace sends writes sent_news disk log_error emit].

Ltac norm_out :=
  red_world; rewrite <- ?app_assoc;
  rewrite ?drop_app_length, ?drop_all; cbn [app].

(** Case analysis on one run of [notify]: the send fails, or it succeeds
    and the write ends in one of its three ways. *)
Ltac notify_cases :=
  rewrite notify_run; red_world;
  match goal with
  | |- context [match head ?s with _ => _ end] =>
      let Hs := fresh "Hsend" in
      destruct (head s) as [[]|] eqn:Hs; cbn zeta;
      try match goal with
      | |- context [default WriteOk ?c] =>
          let Ho := fresh "Ho" in
          destruct (default WriteOk c) eqn:Ho
      end; red_world
  end.

Ltac started_cases :=
  match goal with
  | |- context [if starting ?td && ?c then _ else _] =>
      let Hc := fresh "Hstart" in
      destruct (starting td && c) eqn:Hc; [notify_cases|]
  end.

(** The keys are compared as names, not as strings. *)
Ltac abstract_keys :=
  cbn [alert_key] in *;
  repeat match goal with
  | |- context [notification_id ?ev ?t] =>
      let k := fresh "k" in
      set (k := notification_id ev t) in *; clearbody k
  | |- context [started_id ?ev] =>
      let k := fresh "k" in
      set (k := started_id ev) in *; clearbody k
  end.

Ltac in_set :=
  rewrite ?elem_of_elements, ?elem_of_union, ?elem_of_singleton; auto.

Ltac post_fired :=
  abstract_keys;
  lazymatch goal with
  | |- _ = _ ∧ _ = _ => split; reflexivity
  | |- _ ∈ _ ∧ _ =>
      split; [in_set|];
      eexists _, _; split; [reflexivity|];
      lazymatch goal with
      | |- WriteRaised = WriteRaised ∨ _ => left; reflexivity
      | |- _ => right; eexists; split; [reflexivity|in_set]
      end
  end.

(** C2. In one turn of the event loop, for an upcoming event and a
    threshold [t] of the list, the alert is handed to [bot.send_message]
    exactly when [t - 1 <= minutesUntil <= t] and the key is not in the
    sent set.  The send comes first: when it raises, nothing is marked and
    the handler logs; when it returns, the key is put into the set and the
    write of the file is the next effect. *)
Theorem threshold_alert_fires ev d now w t :
  ev_datetime ev = Some d → t ∈ thresholds →
  let td := minutes_until d now in
  let a := EventIn t ev in
  let k := notification_id ev t in
  let out := emitted (check_event ev now) w in
  let w' := fst (check_event ev now w) in
  (attempted a out ↔
     ((inject_Z (t - 1) <= td)%Q ∧ (td <= inject_Z t)%Q)
     ∧ k ∉ sent_news (tracker w))
  ∧ (attempted a out →
       match head (sends w) with
       | Some SendFails =>
           out = [SendRaised a; Logged TelegramError] ∧ tracker w' = tracker w
       | _ =>
           k ∈ sent_news (tracker w')
           ∧ ∃ e rest, out = Delivered a :: e :: rest
                       ∧ (e = WriteRaised ∨ ∃ keys, e = Wrote keys ∧ k ∈ keys)
       end).
Proof.
  intros Hd Ht td a k out w'. subst out w' a k.
  rewrite <- due_iff. fold td.
  unfold emitted, check_event, try_except.
  rewrite !(process_event_eq ev d now w Hd).
  fold td.
  destruct (List.find (λ t, due t td) thresholds) as [t0|] eqn:Hf.
  - apply find_some in Hf as [Ht0 Hd0]. apply list_elem_of_In in Ht0.
    assert (Hcase : t = t0 ∨ (t ≠ t0 ∧ due t td = false)).
    { destruct (decide (t = t0)) as [|Hne]; [by left|right]. split; [done|].
      apply not_true_is_false. intros Hd'.
      by apply Hne, (due_exclusive td). }
    destruct (is_news_sent (notification_id ev t0) (tracker w)) eqn:Hs0.
    + apply bool_decide_eq_true in Hs0.
      started_cases; norm_out; read_trace.
      all: destruct Hcase as [->|[Hne Hnd]]; [tauto|].
      all: rewrite Hnd; intuition discriminate.
    + apply bool_decide_eq_false in Hs0.
      notify_cases; try started_cases; norm_out; read_trace.
      all: destruct Hcase as [->|[Hne Hnd]];
        [|rewrite Hnd; intuition discriminate].
      all: split; [tauto|intros _].
      all: post_fired.
  - assert (Hnd : due t td = false).
    { apply (find_none _ _ Hf). by apply list_elem_of_In. }
    started_cases; norm_out; read_trace.
    all: rewrite Hnd; intuition discriminate.
Qed.

(** The keys of one event are pairwise distinct strings. *)
Lemma started_id_not_threshold ev t : started_id ev ≠ notification_id ev t.
Proof.
  unfold started_id, notification_id. intros H.
  apply String.app_inj in H. discriminate H.
Qed.

Lemma find_due_starting td :
  starting td = true → List.find (λ t, due t td) thresholds = Some 1.
Proof.
  intros Hs. pose proof (starting_due td Hs) as H1.
  destruct (List.find (λ t, due t td) thresholds) as [t0|] eqn:Hf.
  - apply find_some in Hf as [Ht0 Hd0]. apply list_elem_of_In in Ht0.
    f_equal. apply (due_exclusive td); [done| |done|done].
    unfold thresholds. rewrite !elem_of_cons. tauto.
  - assert (Hn : due 1 td = false).
    { apply (find_none _ _ Hf). unfold thresholds. simpl. tauto. }
    congruence.
Qed.

Lemma is_sent_after_mark k k' (s : gset string) f :
  k ≠ k' →
  is_news_sent k (mkTracker ({[k']} ∪ s) f) = bool_decide (k ∈ s).
Proof.
  intros Hne. unfold is_news_sent; cbn [sent_news].
  apply bool_decide_ext. rewrite elem_of_union, elem_of_singleton. tauto.
Qed.

(** C3, as the code has it.  The started notification of an upcoming event
    fires on a check exactly when [0 <= minutesUntil < 1], its key is not
    in the sent set, and the one-minute alert of the same event does not
    raise on this check: when that alert fires and its send or its write
    fails, the handler leaves the event and skips the started
    notification.  When neither fails, firing depends on no threshold
    key. *)
Theorem started_alert_fires ev d now w :
  ev_datetime ev = Some d →
  let td := minutes_until d now in
  let a := EventStarting ev in
  let out := emitted (check_event ev now) w in
  let first_raises :=
    (notification_id ev 1 ∉ sent_news (tracker w))
    ∧ (head (sends w) = Some SendFails
       ∨ default WriteOk (head (writes w)) ≠ WriteOk) in
  (attempted a out ↔
     ((inject_Z 0 <= td)%Q ∧ (td < inject_Z 1)%Q)
     ∧ (started_id ev ∉ sent_news (tracker w)) ∧ (¬ first_raises))
  ∧ (head (sends w) ≠ Some SendFails →
     default WriteOk (head (writes w)) = WriteOk →
     (attempted a out ↔
        ((inject_Z 0 <= td)%Q ∧ (td < inject_Z 1)%Q)
        ∧ started_id ev ∉ sent_news (tracker w))).
Proof.
  intros Hd td a out first_raises.
  assert (Hmain : attempted a out ↔
            starting td = true ∧ (started_id ev ∉ sent_news (tracker w))
            ∧ (¬ first_raises)).
  { subst out a first_raises.
    unfold emitted, check_event, try_except.
    rewrite !(process_event_eq ev d now w Hd). fold td.
    destruct (starting td) eqn:Hst.
    - rewrite (find_due_starting td Hst).
      destruct (is_news_sent (notification_id ev 1) (tracker w)) eqn:Hs1.
      + apply bool_decide_eq_true in Hs1.
        destruct (is_news_sent (started_id ev) (tracker w)) eqn:Hss;
          cbn [andb negb]; [|notify_cases]; norm_out; read_trace.
        all: first [apply bool_decide_eq_true in Hss
                   |apply bool_decide_eq_false in Hss].
        all: tauto.
      + apply bool_decide_eq_false in Hs1.
        notify_cases.
        all: try rewrite (is_sent_after_mark _ _ _ _
                            (started_id_not_threshold ev 1)).
        all: try (destruct (bool_decide (started_id ev
                                         ∈ sent_news (tracker w))) eqn:Hss;
                  cbn [andb negb]; [|notify_cases]).
        all: norm_out; read_trace.
        all: try first [apply bool_decide_eq_true in Hss
                       |apply bool_decide_eq_false in Hss].
        all: unfold default in *.
        all: try rewrite Hsend. all: try rewrite Ho.
        all: intuition (try discriminate; try congruence).
    - destruct (List.find (λ t, due t td) thresholds) as [t0|];
        [destruct (is_news_sent (notification_id ev t0) (tracker w));
         [|notify_cases]|]; cbn [andb]; norm_out; read_trace.
      all: intuition (try discriminate; try congruence). }
  rewrite <- starting_iff. split; [exact Hmain|].
  intros Hsend Ho. rewrite Hmain. subst first_raises. cbn zeta.
  rewrite Ho. tauto.
Qed.

(** A turn whose first effect is a delivery: the key of the delivered
    alert was not in the set. *)
Lemma first_delivery_fresh ev now w a :
  first_effect (check_event ev now) w = Some (Delivered a) →
  alert_key a ∉ sent_news (tracker w).
Proof.
  unfold first_effect, check_event, try_except.
  destruct (ev_datetime ev) as [d|] eqn:Hd.
  - rewrite !(process_event_eq ev d now w Hd).
    destruct (List.find _ thresholds) as [t0|].
    + destruct (is_news_sent (notification_id ev t0) (tracker w)) eqn:Hs1.
      * destruct (starting (minutes_until d now)); cbn [andb];
          [|by rewrite drop_all].
        destruct (is_news_sent (started_id ev) (tracker w)) eqn:Hss;
          cbn [negb]; [by rewrite drop_all|].
        apply bool_decide_eq_false in Hss.
        notify_cases; norm_out; cbn [head]; intros [= <-]; exact Hss.
      * apply bool_decide_eq_false in Hs1.
        notify_cases; try started_cases; norm_out; cbn [head];
          intros [= <-]; exact Hs1.
    + destruct (starting (minutes_until d now)); cbn [andb];
        [|by rewrite drop_all].
      destruct (is_news_sent (started_id ev) (tracker w)) eqn:Hss;
        cbn [negb]; [by rewrite drop_all|].
      apply bool_decide_eq_false in Hss.
      notify_cases; norm_out; cbn [head]; intros [= <-]; exact Hss.
  - unfold process_event, time_diff, lift, bind. rewrite Hd. norm_out.
    done.
Qed.

(** ** Invariants of the notifier *)

Lemma pres_ret {A} P (x : A) : pres P (ret x).
Proof. by intros w. Qed.

Lemma pres_bind {A B} P (m : M A) (f : A → M B) :
  pres P m → (∀ x, pres P (f x)) → pres P (bind m f).
Proof.
  intros Hm Hf w Hw. unfold bind. specialize (Hm w Hw).
  destruct (m w) as [w1 [x|e]]; [|done]. by apply Hf.
Qed.

Lemma pres_try {A} P (m : M A) (h : exn → M A) :
  pres P m → (∀ e, pres P (h e)) → pres P (try_except m h).
Proof.
  intros Hm Hh w Hw. unfold try_except. specialize (Hm w Hw).
  destruct (m w) as [w1 [x|e]]; [done|]. by apply Hh.
Qed.

Section Preservation.
Context (P : World → Prop).
(** [P] survives a notification whose key is not in the set, and a log
    entry. *)
Hypothesis P_notify :
  ∀ a w, P w → alert_key a ∉ sent_news (tracker w) → P (fst (notify a w)).
Hypothesis P_log : ∀ e w, P w → P (emit (Logged e) w).

Lemma pres_threshold_step ev td t : pres P (threshold_step ev td t).
Proof.
  intros w Hw. rewrite threshold_step_eq.
  destruct (due t td); cbn [andb]; [|done].
  destruct (is_news_sent _ _) eqn:Hs; cbn [negb]; [done|].
  apply bool_decide_eq_false in Hs. by apply P_notify.
Qed.

Lemma pres_thresholds_loop ev td ths : pres P (thresholds_loop ev td ths).
Proof.
  induction ths as [|t ths IH]; cbn [thresholds_loop]; [apply pres_ret|].
  apply pres_bind; [apply pres_threshold_step|done].
Qed.

Lemma pres_started_step ev td : pres P (started_step ev td).
Proof.
  intros w Hw. rewrite started_step_eq.
  destruct (starting td); cbn [andb]; [|done].
  destruct (is_news_sent _ _) eqn:Hs; cbn [negb]; [done|].
  apply bool_decide_eq_false in Hs. by apply P_notify.
Qed.

Lemma pres_check_event ev now : pres P (check_event ev now).
Proof.
  apply pres_try; [|intros e w Hw; by apply P_log].
  unfold process_event. apply pres_bind; [by intros w|]. intros td.
  apply pres_bind; [apply pres_thresholds_loop|]. intros _.
  apply pres_started_step.
Qed.

Lemma pres_events_loop evs now : pres P (events_loop evs now).
Proof.
  induction evs as [|ev evs IH]; cbn [events_loop]; [apply pres_ret|].
  apply pres_bind; [apply pres_check_event|done].
Qed.

Lemma pres_check_upcoming_news currencies feed now_sel now :
  pres P (check_upcoming_news currencies feed now_sel now).
Proof.
  apply pres_try; [|intros e w Hw; by apply P_log].
  apply pres_events_loop.
Qed.

Lemma run_pres currencies steps :
  between_checks steps →
  (RestartProcess ∈ steps →
   ∀ w t, P w → init (disk (tracker w)) = Ok t →
          P (mkWorld t (trace w) (sends w) (writes w))) →
  ∀ w, P w → P (run currencies steps w).
Proof.
  induction steps as [|[feed n1 n2| |feed n1 n2] steps IH];
    intros Hb HR w Hw; cbn [run]; [done| | |].
  - apply IH; [by inversion Hb| |by apply pres_check_upcoming_news].
    intros Hin. apply HR. apply elem_of_cons. by right.
  - destruct (init (disk (tracker w))) as [t|e] eqn:Hi; [|done].
    apply IH; [by inversion Hb| |].
    + intros Hin. apply HR. apply elem_of_cons. by right.
    + apply HR; [apply elem_of_cons; by left|done..].
  - by inversion Hb.
Qed.

(** A check cut by the death of the process, and runs with such checks:
    [P] has to survive a send that is not followed by its mark, and a
    restart. *)
Lemma pres_events_until_kill evs now :
  (∀ a w, P w → alert_key a ∉ sent_news (tracker w) →
          P (fst (send_message a w))) →
  ∀ w, P w → P (events_until_kill evs now w).
Proof.
  intros HK. induction evs as [|ev evs IH]; intros w Hw;
    cbn [events_until_kill]; [done|].
  destruct (first_effect (check_event ev now) w) as [[a| | | |]|] eqn:Hf;
    try (apply IH; by apply pres_check_event).
  apply HK; [done|]. by apply (first_delivery_fresh ev now w a).
Qed.

Lemma run_pres_killed currencies steps :
  (∀ a w, P w → alert_key a ∉ sent_news (tracker w) →
          P (fst (send_message a w))) →
  (∀ w t, P w → init (disk (tracker w)) = Ok t →
          P (mkWorld t (trace w) (sends w) (writes w))) →
  ∀ w, P w → P (run currencies steps w).
Proof.
  intros HK HR.
  induction steps as [|[feed n1 n2| |feed n1 n2] steps IH]; intros w Hw;
    cbn [run]; [done| | |].
  - apply IH. by apply pres_check_upcoming_news.
  - destruct (init (disk (tracker w))) as [t|e] eqn:Hi; [|done].
    apply IH. by apply HR.
  - cbn zeta.
    assert (Hw1 : P (killed_check currencies feed n1 n2 w))
      by (by apply pres_events_until_kill).
    destruct (init (disk (tracker (killed_check currencies feed n1 n2 w))))
      as [t|e] eqn:Hi; [|done].
    apply IH. by apply HR.
Qed.
End Preservation.

(** ** Counting deliveries *)

Lemma deliveries_app k l l' :
  deliveries k (l ++ l') = (deliveries k l + deliveries k l')%nat.
Proof. unfold deliveries. by rewrite filter_app, length_app. Qed.

Lemma deliveries_cons k e l :
  deliveries k (e :: l) =
    ((if decide (delivered_key e = Some k) then 1 else 0) + deliveries k l)%nat.
Proof. unfold deliveries. rewrite filter_cons. by destruct (decide _). Qed.

Lemma deliveries_silent k e l :
  delivered_key e = None → deliveries k (l ++ [e]) = deliveries k l.
Proof.
  intros He. rewrite deliveries_app, deliveries_cons, He.
  rewrite decide_False by done. cbn. lia.
Qed.

Lemma deliveries_notified k a e l :
  delivered_key e = None →
  deliveries k (l ++ [Delivered a; e]) =
    (deliveries k l + if decide (alert_key a = k) then 1 else 0)%nat.
Proof.
  intros He. rewrite deliveries_app, !deliveries_cons, He. cbn [delivered_key].
  rewrite (decide_False (P := None = Some k)) by done.
  destruct (decide (alert_key a = k)) as [->|Hne].
  - rewrite decide_True by done. cbn. lia.
  - rewrite decide_False by congruence. cbn. lia.
Qed.

(** The two ways a notification ends: the send raises and nothing else
    changes, or the message is delivered and the key enters the set, the
    file following the outcome of the write. *)
Lemma notify_effect a w :
  let w' := fst (notify a w) in
  (trace w' = trace w ++ [SendRaised a] ∧ tracker w' = tracker w
   ∧ writes w' = writes w)
  ∨ (∃ e, delivered_key e = None
          ∧ trace w' = trace w ++ [Delivered a; e]
          ∧ writes w' = tail (writes w)
          ∧ sent_news (tracker w') = {[alert_key a]} ∪ sent_news (tracker w)
          ∧ disk (tracker w') =
              match default WriteOk (head (writes w)) with
              | WriteOk =>
                  Json (elements ({[alert_key a]} ∪ sent_news (tracker w)))
              | OpenFails => disk (tracker w)
              | DumpFails => Garbage
              end).
Proof.
  cbn zeta. rewrite notify_run.
  destruct (head (sends w)) as [[]|]; [right|by left|right].
  all: cbn zeta; destruct (default WriteOk (head (writes w))); red_world;
    eexists; by repeat split.
Qed.

(** ** At most once *)

Lemma once_in_memory_notify a w :
  once_in_memory w → alert_key a ∉ sent_news (tracker w) →
  once_in_memory (fst (notify a w)).
Proof.
  intros Hw Ha k. destruct (Hw k) as [H1 H0].
  destruct (notify_effect a w) as [(-> & -> & _)|(e & He & -> & _ & -> & _)].
  - by rewrite deliveries_silent.
  - rewrite deliveries_notified by done.
    rewrite elem_of_union, elem_of_singleton.
    destruct (decide (alert_key a = k)) as [<-|Hne].
    + rewrite (H0 Ha). split; [lia|tauto].
    + rewrite Nat.add_0_r. split; [done|]. intros Hk. apply H0. tauto.
Qed.

Lemma once_in_memory_log e w :
  once_in_memory w → once_in_memory (emit (Logged e) w).
Proof.
  intros Hw k. unfold emit; red_world. by rewrite deliveries_silent.
Qed.

Lemma once_on_disk_notify a w :
  once_on_disk w → alert_key a ∉ sent_news (tracker w) →
  once_on_disk (fst (notify a w)).
Proof.
  intros [Hok Hw] Ha.
  destruct (notify_effect a w)
    as [(Ht & Hk & Hws)|(e & He & Ht & Hws & Hs & Hd)].
  - split; [by rewrite Hws|]. intros k. rewrite Ht, Hk.
    by rewrite deliveries_silent.
  - assert (Ho : default WriteOk (head (writes w)) = WriteOk).
    { destruct (writes w) as [|o ws]; [done|]. by inversion Hok. }
    rewrite Ho in Hd. split.
    + rewrite Hws. destruct (writes w); [done|]. by inversion Hok.
    + intros k. rewrite Ht, Hs, Hd. cbn [stored_keys].
      rewrite list_to_set_elements_L, deliveries_notified by done.
      rewrite elem_of_union, elem_of_singleton.
      destruct (decide (alert_key a = k)) as [<-|Hne].
      * right. destruct (Hw (alert_key a)) as [->|(_ & Hin & _)];
          [|done]. split; [done|]. tauto.
      * rewrite Nat.add_0_r. destruct (Hw k) as [?|(? & ? & ?)]; [by left|].
        right. tauto.
Qed.

Lemma once_on_disk_log e w :
  once_on_disk w → once_on_disk (emit (Logged e) w).
Proof.
  intros [Hok Hw]. split; [done|]. intros k. unfold emit; red_world.
  by rewrite deliveries_silent.
Qed.

Lemma once_on_disk_restart w t :
  once_on_disk w → init (disk (tracker w)) = Ok t →
  once_on_disk (mkWorld t (trace w) (sends w) (writes w)).
Proof.
  intros [Hok Hw] Hi. split; [done|]. intros k. red_world.
  destruct (Hw k) as [?|(? & ? & Hst)]; [by left|right].
  unfold init in Hi.
  destruct (disk (tracker w)) as [|keys|]; cbn in Hi; [| |done].
  - cbn in Hst. by apply not_elem_of_empty in Hst.
  - injection Hi as <-. cbn [sent_news disk]. cbn in Hst. tauto.
Qed.

Lemma settled_notify k n a w :
  settled k n w → alert_key a ∉ sent_news (tracker w) →
  settled k n (fst (notify a w)).
Proof.
  intros (Hn & Hk & Hd) Ha.
  assert (Hne : alert_key a ≠ k) by congruence.
  destruct (notify_effect a w)
    as [(Ht & Htr & _)|(e & He & Ht & _ & Hs & Hdk)].
  - unfold settled. rewrite Ht, Htr. by rewrite deliveries_silent.
  - unfold settled. rewrite Ht, Hs, Hdk, deliveries_notified by done.
    rewrite decide_False by done. rewrite Nat.add_0_r.
    rewrite elem_of_union, elem_of_singleton.
    split; [done|]. split; [tauto|].
    destruct (default WriteOk (head (writes w))); [left|done|by right].
    cbn [stored_keys]. rewrite list_to_set_elements_L.
    rewrite elem_of_union, elem_of_singleton. tauto.
Qed.

Lemma settled_log k n e w : settled k n w → settled k n (emit (Logged e) w).
Proof.
  intros (Hn & Hk & Hd). unfold settled, emit; red_world.
  by rewrite deliveries_silent.
Qed.

Lemma settled_restart k n w t :
  settled k n w → init (disk (tracker w)) = Ok t →
  settled k n (mkWorld t (trace w) (sends w) (writes w)).
Proof.
  intros (Hn & Hk & Hd) Hi. unfold settled; red_world. unfold init in Hi.
  destruct (disk (tracker w)) as [|keys|] eqn:E; cbn in Hi; [| |done].
  - destruct Hd as [Hd|Hd]; [|done]. by apply not_elem_of_empty in Hd.
  - injection Hi as <-. cbn [sent_news disk].
    destruct Hd as [Hd|Hd]; [|done]. cbn in Hd. tauto.
Qed.

Lemma settled_send k n a w :
  settled k n w → alert_key a ∉ sent_news (tracker w) →
  settled k n (fst (send_message a w)).
Proof.
  intros (Hn & Hk & Hd) Ha.
  assert (Hne : alert_key a ≠ k) by congruence.
  unfold settled, send_message.
  destruct (head (sends w)) as [[]|]; red_world.
  all: rewrite deliveries_app, deliveries_cons; cbn [delivered_key].
  all: rewrite decide_False by congruence.
  all: cbn [deliveries filter List.length]; rewrite Nat.add_0_r.
  all: done.
Qed.

(** C1, as the code has it.  A notification key is delivered at most once
    over any number of checks of one process, whatever fails; over any
    number of checks and of restarts between checks it is delivered at
    most once when every rewrite of the state file succeeds; and a key
    that is in the set and in the file is not delivered again by any
    later check, restart or death of the process. *)
Theorem delivered_at_most_once currencies steps k :
  (∀ f ss ws w,
      boot f ss ws = Ok w →
      between_checks steps →
      RestartProcess ∉ steps ∨ Forall (eq WriteOk) ws →
      (deliveries k (trace (run currencies steps w)) ≤ 1)%nat)
  ∧ (∀ w,
      k ∈ sent_news (tracker w) → k ∈ stored_keys (disk (tracker w)) →
      deliveries k (trace (run currencies steps w)) = deliveries k (trace w)).
Proof.
  split.
  - intros f ss ws w Hb Hbc Hcond. unfold boot in Hb.
    destruct (init f) as [t|] eqn:Hi; [|done]. injection Hb as <-.
    destruct Hcond as [Hno|Hok].
    + assert (H : once_in_memory (run currencies steps (mkWorld t [] ss ws))).
      { apply run_pres; [apply once_in_memory_notify|apply once_in_memory_log
                         |done|done|].
        intros k'. cbn [trace]. split; [apply Nat.le_0_l|done]. }
      apply H.
    + assert (H : once_on_disk (run currencies steps (mkWorld t [] ss ws))).
      { apply run_pres; [apply once_on_disk_notify|apply once_on_disk_log
                         |done|intros _; apply once_on_disk_restart|].
        split; [done|]. intros k'. left. reflexivity. }
      destruct H as [_ H]. destruct (H k) as [->|(-> & _)]; lia.
  - intros w Hk Hd.
    assert (H : settled k (deliveries k (trace w)) (run currencies steps w)).
    { apply run_pres_killed; [apply settled_notify|apply settled_log
                              |apply settled_send|apply settled_restart|].
      split; [done|]. split; [done|]. by left. }
    apply H.
Qed.

(** ** Exceptions stop at the handlers *)

Lemma check_event_ok ev now w : snd (check_event ev now w) = Ok tt.
Proof.
  unfold check_event, try_except.
  by destruct (process_event ev now w) as [w1 [[]|e]].
Qed.

Lemma events_loop_cons ev evs now w :
  events_loop (ev :: evs) now w
  = events_loop evs now (fst (check_event ev now w)).
Proof.
  cbn [events_loop]. unfold bind. pose proof (check_event_ok ev now w) as H.
  destruct (check_event ev now w) as [w1 r]. cbn in H. by subst r.
Qed.

Lemma events_loop_ok evs now w : snd (events_loop evs now w) = Ok tt.
Proof.
  revert w. induction evs as [|ev evs IH]; intros w; [done|].
  rewrite events_loop_cons. apply IH.
Qed.

Lemma check_upcoming_news_ok currencies feed now_sel now w :
  snd (check_upcoming_news currencies feed now_sel now w) = Ok tt.
Proof.
  unfold check_upcoming_news, try_except.
  pose proof (events_loop_ok (get_upcoming_events 2 feed currencies now_sel)
                now w) as H.
  destruct (events_loop _ now w) as [w1 r]. cbn in H. by subst r.
Qed.

(** C8, as the code has it.  A write that fails makes [mark_as_sent] raise
    into [check_upcoming_news]; there the handler of the event loop logs
    the error and the loop goes on with the next event, and
    [check_upcoming_news] returns normally to its caller. *)
Theorem write_failure_is_caught k w ev d evs now currencies feed now_sel :
  default WriteOk (head (writes w)) ≠ WriteOk →
  ev_datetime ev = Some d →
  snd (mark_sent k w) = Raise OSError
  ∧ snd (check_event ev now w) = Ok tt
  ∧ (WriteRaised ∈ emitted (check_event ev now) w →
     last (emitted (check_event ev now) w) = Some (Logged OSError))
  ∧ events_loop (ev :: evs) now w
    = events_loop evs now (fst (check_event ev now w))
  ∧ snd (check_upcoming_news currencies feed now_sel now w) = Ok tt.
Proof.
  intros Ho Hd. split; [|split; [|split; [|split]]].
  - unfold mark_sent.
    pose proof (mark_result k (default WriteOk (head (writes w))) (tracker w))
      as Hr.
    destruct (mark_as_sent _ _ _) as [t r]. cbn in Hr. subst r. cbn [snd].
    by destruct (default WriteOk (head (writes w))).
  - apply check_event_ok.
  - clear Ho. unfold emitted, check_event, try_except.
    rewrite !(process_event_eq ev d now w Hd).
    destruct (List.find _ thresholds) as [t0|];
      [destruct (is_news_sent (notification_id ev t0) (tracker w));
       [|notify_cases]|]; try started_cases; norm_out.
    all: rewrite ?elem_of_cons, ?elem_of_nil; intros H.
    all: first [reflexivity | exfalso; intuition discriminate].
  - apply events_loop_cons.
  - apply check_upcoming_news_ok.
Qed.

End NotifierFacts.

(* ===================================================================== *)
(** * Scenarios                                                           *)
(* ===================================================================== *)

Section Scenarios.
Import Calendar Events Store Notifier Samples.

(** Closed facts are settled by evaluation. *)
Ltac by_eval := apply (bool_decide_unpack _); vm_compute; exact I.

(** C1 does not hold as stated.  The 60-minute alert of the sample event
    goes out at 18:00:30, the write that follows fails, the process
    restarts, and the check one second later delivers the same key
    again. *)
Lemma delivered_twice_after_failed_write :
  boot Absent [] [OpenFails] = Ok (fresh [] [OpenFails])
  ∧ deliveries (notification_id cpi_upcoming 60)
      (trace (run default_currencies
                  [CheckNews [cpi] at_18_00_30 at_18_00_30;
                   RestartProcess;
                   CheckNews [cpi] at_18_00_31 at_18_00_31]
                  (fresh [] [OpenFails]))) = 2%nat
  ∧ ¬ (deliveries (notification_id cpi_upcoming 60)
         (trace (run default_currencies
                     [CheckNews [cpi] at_18_00_30 at_18_00_30;
                      RestartProcess;
                      CheckNews [cpi] at_18_00_31 at_18_00_31]
                     (fresh [] [OpenFails]))) ≤ 1)%nat.
Proof.
  split; [reflexivity|]. split; [vm_compute; reflexivity|]. by_eval.
Qed.

(** The same without any failure: the process dies between
    [bot.send_message] and [mark_as_sent], the key is neither in the set
    nor in the file, and the check of the new process, one second later,
    delivers it again.  Every write of the run succeeds. *)
Lemma delivered_twice_after_kill :
  boot Absent [] [] = Ok (fresh [] [])
  ∧ deliveries (notification_id cpi_upcoming 60)
      (trace (run default_currencies
                  [KilledCheck [cpi] at_18_00_30 at_18_00_30;
                   CheckNews [cpi] at_18_00_31 at_18_00_31]
                  (fresh [] []))) = 2%nat
  ∧ trace (run default_currencies
               [KilledCheck [cpi] at_18_00_30 at_18_00_30;
                CheckNews [cpi] at_18_00_31 at_18_00_31]
               (fresh [] []))
    = [Delivered (EventIn 60 cpi_upcoming);
       Delivered (EventIn 60 cpi_upcoming);
       Wrote [notification_id cpi_upcoming 60]]
  ∧ ¬ between_checks [KilledCheck [cpi] at_18_00_30 at_18_00_30;
                      CheckNews [cpi] at_18_00_31 at_18_00_31].
Proof.
  split; [reflexivity|]. split; [vm_compute; reflexivity|].
  split; [vm_compute; reflexivity|].
  intros H. inversion H as [|? ? Hk _]. discriminate Hk.
Qed.

Lemma delivered_at_most_once_witness :
  (boot Absent [] [] = Ok (fresh [] []))
  ∧ between_checks [CheckNews [cpi] at_18_00_30 at_18_00_30;
                    RestartProcess;
                    CheckNews [cpi] at_18_00_31 at_18_00_31]
  ∧ ((RestartProcess ∉ [CheckNews [cpi] at_18_00_30 at_18_00_30;
                        RestartProcess;
                        CheckNews [cpi] at_18_00_31 at_18_00_31])
     ∨ Forall (eq WriteOk) [])
  ∧ (deliveries (notification_id cpi_upcoming 60)
       (trace (run default_currencies
                   [CheckNews [cpi] at_18_00_30 at_18_00_30;
                    RestartProcess;
                    CheckNews [cpi] at_18_00_31 at_18_00_31]
                   (fresh [] []))) ≤ 1)%nat
  ∧ (notification_id cpi_upcoming 60
       ∈ sent_news (mkTracker {[notification_id cpi_upcoming 60]}
                              (Json [notification_id cpi_upcoming 60])))
  ∧ (notification_id cpi_upcoming 60
       ∈ stored_keys (Json [notification_id cpi_upcoming 60]))
  ∧ deliveries (notification_id cpi_upcoming 60)
      (trace (run default_currencies
                  [KilledCheck [cpi] at_18_00_30 at_18_00_30;
                   RestartProcess;
                   CheckNews [cpi] at_18_00_31 at_18_00_31]
                  (mkWorld (mkTracker {[notification_id cpi_upcoming 60]}
                                      (Json [notification_id cpi_upcoming 60]))
                           [] [] [DumpFails])))
    = deliveries (notification_id cpi_upcoming 60) [].
Proof.
  assert (Hb : boot Absent [] [] = Ok (fresh [] [])) by reflexivity.
  assert (Hbc : between_checks [CheckNews [cpi] at_18_00_30 at_18_00_30;
                                RestartProcess;
                                CheckNews [cpi] at_18_00_31 at_18_00_31])
    by (repeat constructor).
  assert (Hs : (RestartProcess ∉ [CheckNews [cpi] at_18_00_30 at_18_00_30;
                                  RestartProcess;
                                  CheckNews [cpi] at_18_00_31 at_18_00_31])
               ∨ Forall (eq WriteOk) []) by (right; constructor).
  assert (Hm : notification_id cpi_upcoming 60
                 ∈ sent_news (mkTracker {[notification_id cpi_upcoming 60]}
                                (Json [notification_id cpi_upcoming 60])))
    by by_eval.
  assert (Hd : notification_id cpi_upcoming 60
                 ∈ stored_keys (Json [notification_id cpi_upcoming 60]))
    by by_eval.
  split; [exact Hb|]. split; [exact Hbc|]. split; [exact Hs|]. split.
  - exact (proj1 (delivered_at_most_once default_currencies _ _)
             Absent [] [] _ Hb Hbc Hs).
  - split; [exact Hm|]. split; [exact Hd|].
    exact (proj2 (delivered_at_most_once default_currencies _ _)
             (mkWorld _ [] [] [DumpFails]) Hm Hd).
Defined.

(** C3 does not hold as stated.  Thirty seconds before the event the
    started notification is due and its key is not in the set, but the
    send of the one-minute alert fails and the handler leaves the event:
    nothing is sent for "started".  With the one-minute key already in the
    set, in the same world, the started notification is attempted. *)
Lemma started_skipped_when_first_alert_fails :
  let td := minutes_until at_19_00 at_18_59_30 in
  ev_datetime cpi_upcoming = Some at_19_00
  ∧ ((inject_Z 0 <= td)%Q ∧ (td < inject_Z 1)%Q)
  ∧ (started_id cpi_upcoming ∉ sent_news (tracker (fresh [SendFails] [])))
  ∧ ¬ attempted (EventStarting cpi_upcoming)
        (emitted (check_event cpi_upcoming at_18_59_30) (fresh [SendFails] []))
  ∧ attempted (EventStarting cpi_upcoming)
      (emitted (check_event cpi_upcoming at_18_59_30)
         (mkWorld (mkTracker {[notification_id cpi_upcoming 1]} Absent)
                  [] [SendFails] []))
  ∧ ¬ (attempted (EventStarting cpi_upcoming)
         (emitted (check_event cpi_upcoming at_18_59_30)
            (fresh [SendFails] []))
       ↔ ((inject_Z 0 <= td)%Q ∧ (td < inject_Z 1)%Q)
         ∧ started_id cpi_upcoming
             ∉ sent_news (tracker (fresh [SendFails] []))).
Proof.
  cbn zeta.
  assert (Hq : (inject_Z 0 <= minutes_until at_19_00 at_18_59_30)%Q
               ∧ (minutes_until at_19_00 at_18_59_30 < inject_Z 1)%Q).
  { split; [apply Qle_bool_iff|apply Qlt_alt]; vm_compute; reflexivity. }
  assert (Hk : started_id cpi_upcoming
                 ∉ sent_news (tracker (fresh [SendFails] []))) by by_eval.
  assert (Hn : ¬ attempted (EventStarting cpi_upcoming)
                 (emitted (check_event cpi_upcoming at_18_59_30)
                    (fresh [SendFails] [])))
    by (unfold attempted; by_eval).
  split; [reflexivity|]. split; [exact Hq|]. split; [exact Hk|].
  split; [exact Hn|]. split; [unfold attempted; by_eval|].
  intros [_ H]. apply Hn, H. by split.
Qed.

Lemma started_alert_fires_witness :
  let td := minutes_until at_19_00 at_18_59_30 in
  let a := EventStarting cpi_upcoming in
  let w := fresh [SendFails] [] in
  let out := emitted (check_event cpi_upcoming at_18_59_30) w in
  let first_raises :=
    (notification_id cpi_upcoming 1 ∉ sent_news (tracker w))
    ∧ (head (sends w) = Some SendFails
       ∨ default WriteOk (head (writes w)) ≠ WriteOk) in
  ev_datetime cpi_upcoming = Some at_19_00
  ∧ (attempted a out ↔
       ((inject_Z 0 <= td)%Q ∧ (td < inject_Z 1)%Q)
       ∧ (started_id cpi_upcoming ∉ sent_news (tracker w))
       ∧ (¬ first_raises))
  ∧ (head (sends w) ≠ Some SendFails →
     default WriteOk (head (writes w)) = WriteOk →
     (attempted a out ↔
        ((inject_Z 0 <= td)%Q ∧ (td < inject_Z 1)%Q)
        ∧ (started_id cpi_upcoming ∉ sent_news (tracker w)))).
Proof.
  assert (Hd : ev_datetime cpi_upcoming = Some at_19_00) by reflexivity.
  split; [exact Hd|].
  exact (started_alert_fires cpi_upcoming at_19_00 at_18_59_30
           (fresh [SendFails] []) Hd).
Defined.

Lemma threshold_alert_fires_witness :
  let td := minutes_until at_19_00 at_18_00_30 in
  let a := EventIn 60 cpi_upcoming in
  let k := notification_id cpi_upcoming 60 in
  let w := fresh [] [DumpFails] in
  let out := emitted (check_event cpi_upcoming at_18_00_30) w in
  let w' := fst (check_event cpi_upcoming at_18_00_30 w) in
  ev_datetime cpi_upcoming = Some at_19_00
  ∧ 60 ∈ thresholds
  ∧ (attempted a out ↔
       ((inject_Z (60 - 1) <= td)%Q ∧ (td <= inject_Z 60)%Q)
       ∧ k ∉ sent_news (tracker w))
  ∧ (attempted a out →
       match head (sends w) with
       | Some SendFails =>
           out = [SendRaised a; Logged TelegramError] ∧ tracker w' = tracker w
       | _ =>
           k ∈ sent_news (tracker w')
           ∧ ∃ e rest, out = Delivered a :: e :: rest
                       ∧ (e = WriteRaised ∨ ∃ keys, e = Wrote keys ∧ k ∈ keys)
       end).
Proof.
  assert (Hd : ev_datetime cpi_upcoming = Some at_19_00) by reflexivity.
  assert (Ht : 60 ∈ thresholds) by by_eval.
  split; [exact Hd|]. split; [exact Ht|].
  exact (threshold_alert_fires cpi_upcoming at_19_00 at_18_00_30
           (fresh [] [DumpFails]) 60 Hd Ht).
Defined.

(** C8 does not hold as stated.  The write after the 60-minute alert
    fails; the error is logged by the handler of the loop and
    [check_upcoming_news] returns normally: nothing reaches its caller. *)
Lemma write_failure_does_not_reach_the_caller :
  WriteRaised
    ∈ emitted (check_upcoming_news default_currencies [cpi]
                 at_18_00_30 at_18_00_30) (fresh [] [OpenFails])
  ∧ Logged OSError
    ∈ emitted (check_upcoming_news default_currencies [cpi]
                 at_18_00_30 at_18_00_30) (fresh [] [OpenFails])
  ∧ snd (check_upcoming_news default_currencies [cpi]
           at_18_00_30 at_18_00_30 (fresh [] [OpenFails])) = Ok tt
  ∧ snd (check_upcoming_news default_currencies [cpi]
           at_18_00_30 at_18_00_30 (fresh [] [OpenFails])) ≠ Raise OSError.
Proof.
  split; [by_eval|]. split; [by_eval|]. split; [vm_compute; reflexivity|].
  vm_compute. discriminate.
Qed.

Lemma write_failure_is_caught_witness :
  let w := fresh [] [OpenFails] in
  default WriteOk (head (writes w)) ≠ WriteOk
  ∧ ev_datetime cpi_upcoming = Some at_19_00
  ∧ snd (mark_sent (notification_id cpi_upcoming 60) w) = Raise OSError
  ∧ snd (check_event cpi_upcoming at_18_00_30 w) = Ok tt
  ∧ (WriteRaised ∈ emitted (check_event cpi_upcoming at_18_00_30) w →
     last (emitted (check_event cpi_upcoming at_18_00_30) w)
     = Some (Logged OSError))
  ∧ events_loop (cpi_upcoming :: []) at_18_00_30 w
    = events_loop [] at_18_00_30 (fst (check_event cpi_upcoming at_18_00_30 w))
  ∧ snd (check_upcoming_news default_currencies [cpi]
           at_18_00_30 at_18_00_30 w) = Ok tt.
Proof.
  assert (Ho : default WriteOk (head (writes (fresh [] [OpenFails]))) ≠ WriteOk)
    by (cbn; discriminate).
  assert (Hd : ev_datetime cpi_upcoming = Some at_19_00) by reflexivity.
  split; [exact Ho|]. split; [exact Hd|].
  exact (write_failure_is_caught (notification_id cpi_upcoming 60)
           (fresh [] [OpenFails]) cpi_upcoming at_19_00 [] at_18_00_30
           default_currencies [cpi] at_18_00_30 Ho Hd).
Defined.

Lemma get_upcoming_events_spec_witness :
  let hours := 2 in
  let filtered :=
    map enrich (filter (λ d, ev_currency d ∈ default_currencies) feed) in
  let selected := select_upcoming hours at_18_05_30 filtered in
  let result := get_upcoming_events hours feed default_currencies at_18_05_30 in
  -999999999 ≤ hours / 24 ≤ 999999999
  ∧ (∀ e, e ∈ result ↔
          ∃ ev d, ev ∈ filtered ∧ event_date ev at_18_05_30 = Some d
                  ∧ 0 ≤ sub_us d at_18_05_30 ≤ hours * 3600000000
                  ∧ e = set_datetime d ev)
  ∧ result ≡ₚ selected
  ∧ StronglySorted (λ a b, datetime_key a ≤ datetime_key b) result
  ∧ (∀ t, filter (λ e, datetime_key e = t) result
          = filter (λ e, datetime_key e = t) selected)
  ∧ Forall (λ e, ∃ d, ev_datetime e = Some d ∧ datetime_key e = to_us d
                      ∧ 0 ≤ to_us d - to_us at_18_05_30
                          ≤ hours * 3600000000)
           result.
Proof.
  assert (Hh : -999999999 ≤ 2 / 24 ≤ 999999999)
    by (vm_compute; split; discriminate).
  split; [exact Hh|].
  exact (get_upcoming_events_spec 2 feed default_currencies at_18_05_30 Hh).
Defined.

Lemma filter_events_spec_witness :
  let h := feed in
  let refs := [0; 1; 2; 3]%nat in
  let allowed := default default_currencies None in
  let kept := filter (λ d, ev_currency d ∈ allowed) feed in
  Forall2 (λ r d, getobj h r = Some d) refs feed
  ∧ ∃ refs' h',
      filter_events refs None h = Some (refs', h')
      ∧ mapM (getobj h') refs' = Some (map enrich kept)
      ∧ kept `sublist_of` feed
      ∧ (∀ d, d ∈ kept ↔ d ∈ feed ∧ ev_currency d ∈ allowed)
      ∧ (∀ d, ev_event (enrich d) = display_title d
              ∧ ev_currency (enrich d) = ev_currency d
              ∧ ev_id (enrich d) = ev_id d)
      ∧ (∀ r d, getobj h r = Some d → getobj h' r = Some d)
      ∧ mapM (getobj h') refs = Some feed.
Proof.
  assert (HF : Forall2 (λ r d, getobj feed r = Some d) [0; 1; 2; 3]%nat feed)
    by (repeat constructor).
  split; [exact HF|].
  exact (filter_events_spec feed [0; 1; 2; 3]%nat feed None HF).
Defined.

(** ** The scenarios of the specification, by evaluation *)

(** An event 59 minutes away: only the 60-minute alert goes out; at the
    next check, 29 minutes before the event, the 30-minute alert goes out
    and the 60-minute one is not sent again. *)
Example sixty_then_thirty :
  map delivered_key
      (trace (run default_currencies
                  [CheckNews [cpi] at_18_01_00 at_18_01_00;
                   CheckNews [cpi] at_18_31_00 at_18_31_00]
                  (fresh [] [])))
  = [Some "Nov 05_07:00PM_USD_CPI m/m_t60"; None;
     Some "Nov 05_07:00PM_USD_CPI m/m_t30"; None]
  ∧ elements (sent_news (tracker
      (run default_currencies
           [CheckNews [cpi] at_18_01_00 at_18_01_00;
            CheckNews [cpi] at_18_31_00 at_18_31_00]
           (fresh [] []))))
    ≡ₚ ["Nov 05_07:00PM_USD_CPI m/m_t60"; "Nov 05_07:00PM_USD_CPI m/m_t30"].
Proof.
  split; [vm_compute; reflexivity|].
  apply (bool_decide_unpack _). vm_compute. exact I.
Qed.

(** Thirty seconds before the event, with nothing failing: the one-minute
    alert and the started notification both go out. *)
Example one_minute_and_started :
  map delivered_key
      (trace (run default_currencies
                  [CheckNews [cpi] at_18_59_30 at_18_59_30] (fresh [] [])))
  = [Some "Nov 05_07:00PM_USD_CPI m/m_t1"; None;
     Some "Nov 05_07:00PM_USD_CPI m/m_started"; None].
Proof. vm_compute. reflexivity. Qed.

(** The allow-list [USD] on events in USD, GBP, EUR and CAD keeps the USD
    event, and the title gets the forecast. *)
Example filter_usd_only :
  (λ r, map ev_event <$> mapM (getobj r.2) r.1)
    <$> filter_events [0; 1; 2; 3]%nat (Some ["USD"]) feed
  = Some (Some ["CPI m/m (F: 0.3%)"]).
Proof. vm_compute. reflexivity. Qed.

(** Events of the evening seen at 18:05:30 with a horizon of two hours: the
    18:30 event comes first, the two 19:00 events follow in feed order. *)
Example upcoming_at_18_05_30 :
  map ev_id (get_upcoming_events 2 feed default_currencies at_18_05_30)
  = ["Nov 05_06:30PM_CAD_Overnight Rate"; "Nov 05_07:00PM_USD_CPI m/m";
     "Nov 05_07:00PM_EUR_Services PMI"].
Proof. vm_compute. reflexivity. Qed.

(** An event earlier on the same day is moved to next year and falls out
    of the window; a date that [strptime] rejects is skipped. *)
Example upcoming_skips_past_and_unparsable :
  get_upcoming_events 2
    [rate; mkDict "Feb 29" "07:00PM" "USD" (VInt 1) "x" "" "" "id" None]
    default_currencies at_18_31_00 = [].
Proof. vm_compute. reflexivity. Qed.

End Scenarios.

(* ===================================================================== *)
(** * Properties of [escape_markdown]                                     *)
(* ===================================================================== *)

Section MarkdownFacts.
Import Markdown.

#[local] Arguments String.append !_ _ / : simpl nomatch.

Lemma replace_char_pass c cs text :
  c ∉ cs → c ≠ backslash → backslash ∉ cs →
  replace_char c (String backslash (String c "")) (escape_pass cs text)
  = escape_pass (cs ++ [c]) text.
Proof.
  intros Hc Hb Hbs. induction text as [|x rest IH]; [done|].
  cbn [escape_pass].
  destruct (decide (x ∈ cs)) as [Hx|Hx].
  - rewrite (bool_decide_eq_true_2 _ Hx).
    rewrite (bool_decide_eq_true_2 (x ∈ cs ++ [c]))
      by (apply elem_of_app; by left).
    cbn [replace_char].
    rewrite (proj2 (Ascii.eqb_neq backslash c)) by congruence.
    rewrite (proj2 (Ascii.eqb_neq x c)) by (intros ->; done).
    by rewrite IH.
  - rewrite (bool_decide_eq_false_2 _ Hx). cbn [replace_char].
    destruct (Ascii.eqb_spec x c) as [->|Hne].
    + rewrite (bool_decide_eq_true_2 (c ∈ cs ++ [c]))
        by (apply elem_of_app; right; apply elem_of_cons; by left).
      simpl. by rewrite IH.
    + rewrite (bool_decide_eq_false_2 (x ∈ cs ++ [c])).
      * by rewrite IH.
      * rewrite elem_of_app, elem_of_cons, elem_of_nil. tauto.
Qed.

Lemma escape_pass_nil text : escape_pass [] text = text.
Proof.
  induction text as [|x rest IH]; [done|]. cbn [escape_pass].
  rewrite bool_decide_eq_false_2 by apply not_elem_of_nil. by rewrite IH.
Qed.

Lemma fold_replace_pass (todo done_ : list ascii) text :
  NoDup (done_ ++ todo) → backslash ∉ done_ ++ todo →
  fold_left
    (λ text char, replace_char char (String backslash (String char "")) text)
    todo (escape_pass done_ text)
  = escape_pass (done_ ++ todo) text.
Proof.
  revert done_. induction todo as [|c todo IH]; intros done_ Hnd Hb.
  - by rewrite app_nil_r.
  - cbn [fold_left].
    assert (Hc : c ∉ done_).
    { apply NoDup_app in Hnd as (_ & Hd & _). intros Hin.
      apply (Hd c Hin). apply elem_of_cons. by left. }
    assert (Hcb : c ≠ backslash).
    { intros ->. apply Hb. apply elem_of_app. right. apply elem_of_cons.
      by left. }
    rewrite replace_char_pass; [|done|done|].
    + replace (done_ ++ c :: todo) with ((done_ ++ [c]) ++ todo)
        by (by rewrite <- app_assoc).
      apply IH; by rewrite <- app_assoc.
    + intros Hin. apply Hb. apply elem_of_app. by left.
Qed.

Lemma escape_markdown_pass text :
  escape_markdown text = escape_pass special_chars text.
Proof.
  unfold escape_markdown. destruct (String.eqb_spec text "") as [->|_];
    [done|].
  rewrite <- (escape_pass_nil text) at 1.
  apply (fold_replace_pass special_chars []).
  - apply (bool_decide_unpack _). vm_compute. exact I.
  - apply (bool_decide_unpack _). vm_compute. exact I.
Qed.

Lemma escape_pass_app cs text text' :
  escape_pass cs (text +:+ text')
  = escape_pass cs text +:+ escape_pass cs text'.
Proof.
  induction text as [|x rest IH]; [done|].
  change (String x rest +:+ text') with (String x (rest +:+ text')).
  cbn [escape_pass]. rewrite IH. by destruct (bool_decide (x ∈ cs)).
Qed.

(** X1. The eighteen replacements of [escape_markdown] amount to one pass
    over the text: each special character gets one backslash in front, and
    every other character, the backslash included, is copied as it is.  So
    escaping the parts of a text and joining them gives the escaped
    text. *)
Theorem escape_markdown_one_pass text text' :
  escape_markdown text = escape_pass special_chars text
  ∧ escape_markdown (text +:+ text')
    = escape_markdown text +:+ escape_markdown text'.
Proof.
  split; [apply escape_markdown_pass|].
  rewrite !escape_markdown_pass. apply escape_pass_app.
Qed.

Lemma length_escape_pass cs text :
  String.length (escape_pass cs text)
  = (String.length text + count_in cs text)%nat.
Proof.
  induction text as [|x rest IH]; [done|]. cbn [escape_pass count_in].
  destruct (bool_decide (x ∈ cs)); cbn [String.length]; rewrite IH; lia.
Qed.

Lemma count_in_le cs text : (count_in cs text ≤ String.length text)%nat.
Proof.
  induction text as [|x rest IH]; [done|]. cbn [count_in String.length].
  destruct (bool_decide (x ∈ cs)); lia.
Qed.

Lemma guarded_escape_pass cs prev text :
  backslash ∉ cs → guarded cs prev (escape_pass cs text).
Proof.
  intros Hb. revert prev. induction text as [|x rest IH]; intros prev;
    [done|].
  cbn [escape_pass]. destruct (decide (x ∈ cs)) as [Hx|Hx].
  - rewrite (bool_decide_eq_true_2 _ Hx). cbn [guarded].
    split; [done|]. split; [done|]. apply IH.
  - rewrite (bool_decide_eq_false_2 _ Hx). cbn [guarded].
    split; [done|]. apply IH.
Qed.

(** X2. The escaped text is longer than the text by the number of special
    characters in it, so at most twice as long; and in it every special
    character stands right after a backslash. *)
Theorem escape_markdown_length_and_guard text :
  String.length (escape_markdown text)
  = (String.length text + count_in special_chars text)%nat
  ∧ (String.length (escape_markdown text) ≤ 2 * String.length text)%nat
  ∧ guarded special_chars None (escape_markdown text).
Proof.
  rewrite escape_markdown_pass, length_escape_pass.
  pose proof (count_in_le special_chars text).
  split; [done|]. split; [lia|].
  apply guarded_escape_pass. apply (bool_decide_unpack _). vm_compute.
  exact I.
Qed.

End MarkdownFacts.

(* ===================================================================== *)
(** * More on the notification state                                      *)
(* ===================================================================== *)

Section StoreRestarts.
Import Store Channel.

Implicit Types (k : string) (t : NewsTracker) (o : write_outcome).

Lemma run_op_file_within_memory op t :
  file_within_memory t → file_within_memory (run_op op t).
Proof.
  unfold file_within_memory. intros H.
  destruct op as [k|k o| |o]; cbn [run_op]; try done.
  - rewrite mark_disk, mark_memory. destruct o; [right| |by left].
    + cbn [stored_keys]. by rewrite list_to_set_elements_L.
    + destruct H as [H|H]; [by left|right].
      intros x Hx. apply elem_of_union. right. by apply H.
  - destruct o; cbn [save_sent_news fst disk sent_news]; [right|done|by left].
    cbn [stored_keys]. by rewrite list_to_set_elements_L.
Qed.

Lemma run_ops_file_within_memory ops t :
  file_within_memory t → file_within_memory (run_ops ops t).
Proof.
  revert t. induction ops as [|op ops IH]; intros t H; [done|].
  apply IH. by apply run_op_file_within_memory.
Qed.

(** X3. The file never holds a key that the process does not have: after
    any calls on a tracker that was built from a file, whatever the writes
    did, a tracker built on the file holds no key outside the set in
    memory.  A restart can lose keys; it cannot add one. *)
Theorem restart_adds_no_key (ops : list store_op) (f : file) t t' :
  init f = Ok t →
  init (disk (run_ops ops t)) = Ok t' →
  sent_news t' ⊆ sent_news (run_ops ops t).
Proof.
  intros Hi Hi'.
  assert (H0 : file_within_memory t).
  { unfold init in Hi. destruct f as [|keys|]; cbn in Hi; [| |done].
    - injection Hi as <-. right. done.
    - injection Hi as <-. right. done. }
  destruct (run_ops_file_within_memory ops t H0) as [H|H];
    unfold init in Hi'; destruct (disk (run_ops ops t)) as [|keys|];
    cbn in Hi'; try done.
  - injection Hi' as <-. cbn [sent_news]. intros x Hx.
    by apply not_elem_of_empty in Hx.
  - injection Hi' as <-. exact H.
Qed.

Lemma restart_adds_no_key_witness :
  init Absent = Ok (mkTracker ∅ Absent)
  ∧ init (disk (run_ops [OpMark "a_t60" OpenFails] (mkTracker ∅ Absent)))
    = Ok (mkTracker ∅ Absent)
  ∧ sent_news (mkTracker ∅ Absent)
    ⊆ sent_news (run_ops [OpMark "a_t60" OpenFails] (mkTracker ∅ Absent)).
Proof.
  assert (H1 : init Absent = Ok (mkTracker ∅ Absent)) by reflexivity.
  assert (H2 : init (disk (run_ops [OpMark "a_t60" OpenFails]
                             (mkTracker ∅ Absent)))
               = Ok (mkTracker ∅ Absent)) by reflexivity.
  split; [exact H1|]. split; [exact H2|].
  exact (restart_adds_no_key _ _ _ _ H1 H2).
Defined.

(** X4. The last write decides what a restart finds.  After a call whose
    write succeeded, a tracker built on the file is the tracker itself, so
    the keys of earlier failed writes are in the file too; after a write
    that failed inside [json.dump], the file cannot be read and no tracker
    can be built on it. *)
Theorem last_write_decides (ops : list store_op) t k :
  (let t' := run_ops (ops ++ [OpMark k WriteOk]) t in
   init (disk t') = Ok t'
   ∧ k ∈ sent_news t' ∧ sent_news (run_ops ops t) ⊆ sent_news t')
  ∧ (let t' := run_ops (ops ++ [OpSave WriteOk]) t in
     init (disk t') = Ok t' ∧ sent_news t' = sent_news (run_ops ops t))
  ∧ init (disk (run_ops (ops ++ [OpMark k DumpFails]) t))
    = Raise JSONDecodeError
  ∧ init (disk (run_ops (ops ++ [OpSave DumpFails]) t))
    = Raise JSONDecodeError.
Proof.
  unfold run_ops. rewrite !foldl_app. cbn [foldl run_op].
  fold (run_ops ops t). set (t0 := run_ops ops t).
  split; [|split; [|split]].
  - cbn zeta. unfold mark_as_sent, init.
    cbn [save_sent_news fst disk sent_news load_sent_news].
    rewrite list_to_set_elements_L. split; [done|].
    split; [apply elem_of_union; left; by apply elem_of_singleton|].
    intros x Hx. apply elem_of_union. by right.
  - cbn zeta. unfold init.
    cbn [save_sent_news fst disk sent_news load_sent_news].
    by rewrite list_to_set_elements_L.
  - done.
  - done.
Qed.

End StoreRestarts.

(* ===================================================================== *)
(** * More on the notifier                                                *)
(* ===================================================================== *)

Section ChannelFacts.
Import Calendar Events Store Notifier Channel.

Implicit Types (w : World) (a : alert) (ev : Dict) (td : Q) (k : string).

Ltac red_world :=
  cbn [fst snd tracker trace sends writes sent_news disk log_error emit].

Ltac notify_cases :=
  rewrite notify_run; red_world;
  match goal with
  | |- context [match head ?s with _ => _ end] =>
      let Hs := fresh "Hsend" in
      destruct (head s) as [[]|] eqn:Hs; cbn zeta;
      try match goal with
      | |- context [default WriteOk ?c] =>
          let Ho := fresh "Ho" in
          destruct (default WriteOk c) eqn:Ho
      end; red_world
  end.

(** ** Moments at which nothing is due *)

Lemma check_event_not_due ev d now w :
  ev_datetime ev = Some d →
  Forall (λ t, due t (minutes_until d now) = false) thresholds →
  check_event ev now w = (w, Ok tt).
Proof.
  intros Hd Hnd. unfold check_event, try_except, process_event, time_diff, lift.
  rewrite Hd. unfold bind. rewrite (thresholds_not_due _ _ _ _ Hnd).
  rewrite started_step_eq.
  destruct (starting (minutes_until d now)) eqn:Hst; [|done].
  apply starting_due in Hst.
  assert (H1 : due 1 (minutes_until d now) = false).
  { rewrite Forall_forall in Hnd. apply Hnd. unfold thresholds.
    rewrite !elem_of_cons. tauto. }
  congruence.
Qed.

(** X5. Outside the five windows nothing happens: when the minutes until
    the event are in none of [59,60], [29,30], [14,15], [4,5] and [0,1],
    one turn of the event loop sends nothing, writes nothing, logs nothing
    and leaves the tracker as it was. *)
Theorem check_event_outside_windows ev d now w :
  ev_datetime ev = Some d →
  (∀ t, t ∈ thresholds →
        ¬ ((inject_Z (t - 1) <= minutes_until d now)%Q
           ∧ (minutes_until d now <= inject_Z t)%Q)) →
  check_event ev now w = (w, Ok tt).
Proof.
  intros Hd Hout. apply (check_event_not_due ev d now w Hd).
  apply Forall_forall. intros t Ht. apply not_true_is_false.
  rewrite due_iff. by apply Hout.
Qed.

Lemma check_event_outside_windows_witness :
  ev_datetime Samples.cpi_upcoming = Some Samples.at_19_00
  ∧ (∀ t, t ∈ thresholds →
          ¬ ((inject_Z (t - 1)
              <= minutes_until Samples.at_19_00 Samples.at_18_05_30)%Q
             ∧ (minutes_until Samples.at_19_00 Samples.at_18_05_30
                <= inject_Z t)%Q))
  ∧ check_event Samples.cpi_upcoming Samples.at_18_05_30
      (Samples.fresh [] [])
    = (Samples.fresh [] [], Ok tt).
Proof.
  assert (H1 : ev_datetime Samples.cpi_upcoming = Some Samples.at_19_00)
    by reflexivity.
  assert (H2 : ∀ t, t ∈ thresholds →
            ¬ ((inject_Z (t - 1)
                <= minutes_until Samples.at_19_00 Samples.at_18_05_30)%Q
               ∧ (minutes_until Samples.at_19_00 Samples.at_18_05_30
                  <= inject_Z t)%Q)).
  { intros t Ht H. apply due_iff in H. unfold thresholds in Ht.
    rewrite !elem_of_cons, elem_of_nil in Ht.
    destruct Ht as [->|[->|[->|[->|[->|[]]]]]]; vm_compute in H;
      discriminate H. }
  split; [exact H1|]. split; [exact H2|].
  exact (check_event_outside_windows _ _ _ (Samples.fresh [] []) H1 H2).
Defined.

Lemma minutes_until_eq d now :
  minutes_until d now = Qmake (sub_us d now * 1) 60000000.
Proof. reflexivity. Qed.

Lemma off_grid_not_due us :
  60000000 < us mod 300000000 < 240000000 →
  Forall (λ t, due t (Qmake (us * 1) 60000000) = false) thresholds.
Proof.
  intros Hph. pose proof (Z.div_mod us 300000000 ltac:(lia)) as Hdm.
  unfold thresholds.
  repeat (constructor;
          [rewrite due_Z; apply andb_false_iff;
           rewrite Z.leb_gt, Z.leb_gt; lia|]).
  constructor.
Qed.

(** X6. The job is scheduled every five minutes and every window is one
    minute wide.  Take a clock reading at which the time to the event,
    modulo five minutes, is more than one minute plus [j] and less than
    four minutes minus [j].  Then a turn of the event loop whose clock
    reading is within [j] of a whole number of five-minute intervals
    before or after that reading does nothing for the event: no alert of
    any threshold, no started notification, no write, no log entry. *)
Theorem off_grid_check_is_silent ev d now now' (j n : Z) w :
  ev_datetime ev = Some d →
  0 ≤ j →
  60000000 + j < sub_us d now mod check_interval < 240000000 - j →
  - j ≤ to_us now' - to_us now - n * check_interval ≤ j →
  check_event ev now' w = (w, Ok tt).
Proof.
  intros Hd Hj Hph Hgrid. apply (check_event_not_due ev d now' w Hd).
  rewrite minutes_until_eq. apply off_grid_not_due.
  unfold check_interval in *. change (5 * 60 * 1000000) with 300000000 in *.
  set (x := sub_us d now) in *.
  set (e := to_us now' - to_us now - n * 300000000) in *.
  assert (E : sub_us d now' = (x mod 300000000 - e)
                              + (x / 300000000 - n) * 300000000).
  { pose proof (Z.div_mod x 300000000 ltac:(lia)).
    subst x e. unfold sub_us in *. lia. }
  rewrite E, Z.mod_add by lia.
  rewrite Z.mod_small by lia. lia.
Qed.

Lemma off_grid_check_is_silent_witness :
  ev_datetime Samples.cpi_upcoming = Some Samples.at_19_00
  ∧ 0 ≤ 15000000
  ∧ 60000000 + 15000000
    < sub_us Samples.at_19_00 (mkDatetime 2026 11 5 17 57 30 0)
      mod check_interval
    < 240000000 - 15000000
  ∧ - 15000000
    ≤ to_us (mkDatetime 2026 11 5 18 57 42 0)
      - to_us (mkDatetime 2026 11 5 17 57 30 0) - 12 * check_interval
    ≤ 15000000
  ∧ check_event Samples.cpi_upcoming (mkDatetime 2026 11 5 18 57 42 0)
      (Samples.fresh [] [])
    = (Samples.fresh [] [], Ok tt).
Proof.
  assert (H1 : ev_datetime Samples.cpi_upcoming = Some Samples.at_19_00)
    by reflexivity.
  assert (H2 : 0 ≤ 15000000) by lia.
  assert (H3 : 60000000 + 15000000
               < sub_us Samples.at_19_00 (mkDatetime 2026 11 5 17 57 30 0)
                 mod check_interval
               < 240000000 - 15000000) by (vm_compute; split; reflexivity).
  assert (H4 : - 15000000
               ≤ to_us (mkDatetime 2026 11 5 18 57 42 0)
                 - to_us (mkDatetime 2026 11 5 17 57 30 0)
                 - 12 * check_interval
               ≤ 15000000)
    by (vm_compute; split; discriminate).
  split; [exact H1|]. split; [exact H2|]. split; [exact H3|].
  split; [exact H4|].
  exact (off_grid_check_is_silent _ _ _ _ _ 12 (Samples.fresh [] [])
           H1 H2 H3 H4).
Defined.

(** Without the margin a reading can reach a window.  At 17:56:10 the
    time to the event, modulo five minutes, is 3 minutes and 50 seconds;
    the check that reads the clock twelve seconds before the next point
    of the grid, at 18:00:58, is 59 minutes and 2 seconds before the event
    and sends the alert of sixty minutes. *)
Example early_reading_reaches_a_window :
  sub_us Samples.at_19_00 (mkDatetime 2026 11 5 17 56 10 0)
    mod check_interval = 230000000
  ∧ to_us (mkDatetime 2026 11 5 18 0 58 0)
    - to_us (mkDatetime 2026 11 5 17 56 10 0) - 1 * check_interval
    = - 12000000
  ∧ alerts_of (emitted (check_event Samples.cpi_upcoming
                          (mkDatetime 2026 11 5 18 0 58 0))
                       (Samples.fresh [] []))
    = [EventIn 60 Samples.cpi_upcoming].
Proof. repeat split; vm_compute; reflexivity. Qed.

(** ** What one turn sends *)

Lemma check_event_trace ev now w :
  ∃ l, trace (fst (check_event ev now w)) = trace w ++ l
       ∧ (alerts_of l = []
          ∨ (∃ t, t ∈ thresholds ∧ alerts_of l = [EventIn t ev])
          ∨ alerts_of l = [EventStarting ev]
          ∨ alerts_of l = [EventIn 1 ev; EventStarting ev]).
Proof.
  destruct (ev_datetime ev) as [d|] eqn:Hd.
  - unfold check_event, try_except.
    rewrite (process_event_eq ev d now w Hd).
    destruct (starting (minutes_until d now)) eqn:Hst.
    + rewrite (find_due_starting _ Hst).
      destruct (is_news_sent (notification_id ev 1) (tracker w));
        [|notify_cases]; cbn [andb];
        try match goal with
        | |- context [negb (is_news_sent (started_id ev) ?t)] =>
            destruct (is_news_sent (started_id ev) t); cbn [negb];
            [|notify_cases]
        end; red_world; rewrite <- ?app_assoc; cbn [app].
      all: (eexists; split;
            [first [reflexivity | symmetry; apply app_nil_r]|]).
      all: cbn.
      all: first [ left; reflexivity
                 | right; left; exists 1; split;
                   [unfold thresholds; rewrite !elem_of_cons; tauto
                   |reflexivity]
                 | right; right; left; reflexivity
                 | right; right; right; reflexivity ].
    + destruct (List.find (λ t, due t (minutes_until d now)) thresholds)
        as [t0|] eqn:Hf.
      * apply find_some in Hf as [Ht0 _]. apply list_elem_of_In in Ht0.
        destruct (is_news_sent (notification_id ev t0) (tracker w));
          [|notify_cases]; cbn [andb]; red_world;
          rewrite <- ?app_assoc; cbn [app].
        all: (eexists; split;
              [first [reflexivity | symmetry; apply app_nil_r]|]).
        all: cbn.
        all: first [ left; reflexivity
                   | right; left; exists t0; split; [assumption|reflexivity] ].
      * cbn [andb]. exists []. split; [symmetry; apply app_nil_r|by left].
  - unfold check_event, try_except, process_event, time_diff, lift, bind.
    rewrite Hd. red_world. eexists. split; [reflexivity|by left].
Qed.

(** X7. One turn of the event loop hands at most two messages to
    [bot.send_message]: nothing, the alert of one threshold, the started
    notification, or the one-minute alert followed by the started
    notification; and every one of them is about the event of the turn. *)
Theorem alerts_of_one_turn ev now w :
  let out := alerts_of (emitted (check_event ev now) w) in
  (out = []
   ∨ (∃ t, t ∈ thresholds ∧ out = [EventIn t ev])
   ∨ out = [EventStarting ev]
   ∨ out = [EventIn 1 ev; EventStarting ev])
  ∧ (List.length out ≤ 2)%nat
  ∧ Forall (λ a, alert_event a = ev) out.
Proof.
  cbn zeta. unfold emitted.
  destruct (check_event_trace ev now w) as (l & -> & H).
  rewrite drop_app_length.
  split; [exact H|].
  destruct H as [->|[(t & _ & ->)|[->| ->]]]; cbn [List.length];
    (split; [lia|]); repeat constructor.
Qed.

(** ** Alerts are about selected events only *)

Lemma attempted_alerts_of a l : attempted a l ↔ a ∈ alerts_of l.
Proof.
  unfold attempted, alerts_of. rewrite list_elem_of_omap. split.
  - intros [H|H]; eexists; (split; [exact H|done]).
  - intros ([b|b| | |e] & Hin & Hh); cbn in Hh; try discriminate;
      injection Hh as ->; tauto.
Qed.

Lemma events_loop_trace evs now w :
  ∃ l, trace (fst (events_loop evs now w)) = trace w ++ l
       ∧ ∀ a, attempted a l → alert_event a ∈ evs.
Proof.
  revert w. induction evs as [|ev evs IH]; intros w.
  - exists []. split; [symmetry; apply app_nil_r|].
    intros a [H|H]; by apply elem_of_nil in H.
  - rewrite events_loop_cons.
    destruct (check_event_trace ev now w) as (l1 & E1 & H1).
    destruct (IH (fst (check_event ev now w))) as (l2 & E2 & H2).
    exists (l1 ++ l2). split; [by rewrite E2, E1, app_assoc|].
    intros a Ha. apply elem_of_cons.
    assert (Ha' : attempted a l1 ∨ attempted a l2).
    { unfold attempted in *. rewrite !elem_of_app in Ha. tauto. }
    destruct Ha' as [Ha'|Ha']; [left|right; by apply H2].
    apply attempted_alerts_of in Ha'.
    destruct H1 as [E|[(t & _ & E)|[E|E]]]; rewrite E in Ha';
      rewrite ?elem_of_cons, elem_of_nil in Ha'.
    + done.
    + by destruct Ha' as [->|[]].
    + by destruct Ha' as [->|[]].
    + by destruct Ha' as [->|[->|[]]].
Qed.

(** X8. Every message of a check is about an event of the feed that the
    selection kept: its currency is in the configured list, its occurrence
    time, computed on the clock of the selection, is at most two hours
    ahead, and the alert carries the feed's id for it. *)
Theorem alerts_only_for_selected_events currencies feed now_sel now w a :
  attempted a (emitted (check_upcoming_news currencies feed now_sel now) w) →
  ∃ raw d,
    raw ∈ feed ∧ ev_currency raw ∈ currencies
    ∧ event_date (enrich raw) now_sel = Some d
    ∧ 0 ≤ sub_us d now_sel ≤ 2 * 3600000000
    ∧ alert_event a = set_datetime d (enrich raw)
    ∧ ev_id (alert_event a) = ev_id raw.
Proof.
  unfold emitted, check_upcoming_news, try_except.
  set (evs := get_upcoming_events 2 feed currencies now_sel).
  pose proof (events_loop_ok evs now w) as Hok.
  destruct (events_loop_trace evs now w) as (l & E & H).
  destruct (events_loop evs now w) as [w1 r]. cbn in Hok, E. subst r.
  cbn [fst]. rewrite E, drop_app_length. intros Ha. apply H in Ha.
  subst evs. rewrite get_upcoming_events_eq in Ha by (change (2 / 24) with 0; lia).
  rewrite sort_by_perm in Ha.
  apply elem_of_select_upcoming in Ha as (ev & d & Hev & Hd & Hw & ->).
  apply list_elem_of_fmap in Hev as (raw & -> & Hraw).
  apply list_elem_of_filter in Hraw as [Hc Hraw].
  exists raw, d. destruct (enrich_fields raw) as (_ & _ & _ & Hid & _).
  split; [done|]. split; [done|]. split; [done|]. split; [lia|].
  split; [done|]. exact Hid.
Qed.

Lemma alerts_only_for_selected_events_witness :
  attempted (EventIn 60 Samples.cpi_upcoming)
    (emitted (check_upcoming_news default_currencies Samples.feed
                Samples.at_18_00_30 Samples.at_18_00_30)
             (Samples.fresh [] []))
  ∧ ∃ raw d,
      raw ∈ Samples.feed ∧ ev_currency raw ∈ default_currencies
      ∧ event_date (enrich raw) Samples.at_18_00_30 = Some d
      ∧ 0 ≤ sub_us d Samples.at_18_00_30 ≤ 2 * 3600000000
      ∧ alert_event (EventIn 60 Samples.cpi_upcoming)
        = set_datetime d (enrich raw)
      ∧ ev_id (alert_event (EventIn 60 Samples.cpi_upcoming)) = ev_id raw.
Proof.
  assert (H : attempted (EventIn 60 Samples.cpi_upcoming)
                (emitted (check_upcoming_news default_currencies Samples.feed
                            Samples.at_18_00_30 Samples.at_18_00_30)
                         (Samples.fresh [] [])))
    by (apply (bool_decide_unpack _); vm_compute; exact I).
  split; [exact H|].
  exact (alerts_only_for_selected_events _ _ _ _ _ _ H).
Defined.

(** ** Keys *)

Lemma string_rev_app (s1 s2 e1 e2 : string) :
  s1 +:+ e1 = s2 +:+ e2 →
  rev (list_ascii_of_string e1) ++ rev (list_ascii_of_string s1)
  = rev (list_ascii_of_string e2) ++ rev (list_ascii_of_string s2).
Proof.
  intros H. apply (f_equal list_ascii_of_string) in H.
  assert (Happ : ∀ x y, list_ascii_of_string (x +:+ y)
                        = list_ascii_of_string x ++ list_ascii_of_string y).
  { intros x y. induction x as [|c x IH]; [done|].
    change (list_ascii_of_string (String c x +:+ y))
      with (c :: list_ascii_of_string (x +:+ y)).
    by rewrite IH. }
  rewrite !Happ in H. apply (f_equal (@rev ascii)) in H.
  by rewrite !rev_app_distr in H.
Qed.

Lemma string_rev_inj (s1 s2 : string) :
  rev (list_ascii_of_string s1) = rev (list_ascii_of_string s2) → s1 = s2.
Proof.
  intros H. apply (f_equal (@rev ascii)) in H.
  rewrite !rev_involutive in H.
  apply (f_equal string_of_list_ascii) in H.
  by rewrite !string_of_list_ascii_of_string in H.
Qed.

(** X9. The key says which notification it is: two alerts with the same
    key are of the same kind, with the same threshold, and about events
    with the same id.  So within the thresholds of the list one key never
    stands for two different notifications of an event; two events that
    the normalizer gives the same id do share their keys. *)
Theorem alert_keys_are_unambiguous a b :
  (∀ t, alert_kind a = Some t → t ∈ thresholds) →
  (∀ t, alert_kind b = Some t → t ∈ thresholds) →
  alert_key a = alert_key b ↔
  alert_kind a = alert_kind b
  ∧ ev_id (alert_event a) = ev_id (alert_event b).
Proof.
  intros Ha Hb. split.
  - assert (Hin : ∀ t, t ∈ thresholds →
              t = 60 ∨ t = 30 ∨ t = 15 ∨ t = 5 ∨ t = 1).
    { intros t. unfold thresholds. rewrite !elem_of_cons, elem_of_nil.
      tauto. }
    destruct a as [t ev|ev], b as [t' ev'|ev'];
      cbn [alert_key alert_kind alert_event notification_id started_id] in *;
      try (specialize (Ha _ eq_refl); apply Hin in Ha);
      try (specialize (Hb _ eq_refl); apply Hin in Hb);
      intros H; apply string_rev_app in H;
      remember (rev (list_ascii_of_string (ev_id ev))) as r1 eqn:E1;
      remember (rev (list_ascii_of_string (ev_id ev'))) as r2 eqn:E2.
    + destruct Ha as [->|[->|[->|[->| ->]]]];
        destruct Hb as [->|[->|[->|[->| ->]]]];
        vm_compute in H; try discriminate H.
      all: split; [reflexivity|].
      all: apply string_rev_inj; congruence.
    + destruct Ha as [->|[->|[->|[->| ->]]]];
        vm_compute in H; discriminate H.
    + destruct Hb as [->|[->|[->|[->| ->]]]];
        vm_compute in H; discriminate H.
    + vm_compute in H. split; [done|]. apply string_rev_inj. congruence.
  - destruct a as [t ev|ev], b as [t' ev'|ev'];
      cbn [alert_key alert_kind alert_event notification_id started_id];
      intros [Hk Hid]; cbn [alert_kind alert_event] in Hk, Hid;
      try discriminate Hk.
    + injection Hk as ->. unfold notification_id. by rewrite Hid.
    + unfold started_id. by rewrite Hid.
Qed.

Lemma alert_keys_are_unambiguous_witness :
  (∀ t, alert_kind (EventIn 60 Samples.cpi_upcoming) = Some t
        → t ∈ thresholds)
  ∧ (∀ t, alert_kind (EventIn 60 (enrich Samples.cpi)) = Some t
          → t ∈ thresholds)
  ∧ (alert_key (EventIn 60 Samples.cpi_upcoming)
     = alert_key (EventIn 60 (enrich Samples.cpi)) ↔
     alert_kind (EventIn 60 Samples.cpi_upcoming)
     = alert_kind (EventIn 60 (enrich Samples.cpi))
     ∧ ev_id (alert_event (EventIn 60 Samples.cpi_upcoming))
       = ev_id (alert_event (EventIn 60 (enrich Samples.cpi)))).
Proof.
  assert (H : ∀ ev t, alert_kind (EventIn 60 ev) = Some t → t ∈ thresholds).
  { intros ev t [= <-]. unfold thresholds. apply elem_of_cons. by left. }
  split; [exact (H _)|]. split; [exact (H _)|].
  exact (alert_keys_are_unambiguous _ _ (H _) (H _)).
Defined.

(** ** Delivered keys are recorded *)

(** X10. A notification that reached the channel is recorded, as long as
    no process dies inside a check.  In a process that was not restarted
    its key is in the set in memory, whatever failed; and when every
    rewrite of the file succeeds its key is in the set and in the file,
    also after restarts between checks. *)
Theorem delivered_keys_are_recorded currencies steps f ss ws w k :
  boot f ss ws = Ok w →
  between_checks steps →
  (RestartProcess ∉ steps) ∨ Forall (eq WriteOk) ws →
  (0 < deliveries k (trace (run currencies steps w)))%nat →
  k ∈ sent_news (tracker (run currencies steps w))
  ∧ (Forall (eq WriteOk) ws →
     k ∈ stored_keys (disk (tracker (run currencies steps w)))).
Proof.
  intros Hb Hbc Hcond Hpos. unfold boot in Hb.
  destruct (init f) as [t|] eqn:Hi; [|done]. injection Hb as <-.
  assert (Hdisk : Forall (eq WriteOk) ws →
            k ∈ sent_news (tracker (run currencies steps
                                      (mkWorld t [] ss ws)))
            ∧ k ∈ stored_keys (disk (tracker (run currencies steps
                                                (mkWorld t [] ss ws))))).
  { intros Hok.
    assert (H : once_on_disk (run currencies steps (mkWorld t [] ss ws))).
    { apply run_pres; [apply once_on_disk_notify|apply once_on_disk_log
                       |done|intros _; apply once_on_disk_restart|].
      split; [done|]. intros k'. left. reflexivity. }
    destruct H as [_ H]. destruct (H k) as [H0|(_ & ? & ?)]; [lia|done]. }
  split; [|intros Hok; by apply Hdisk].
  destruct Hcond as [Hno|Hok]; [|by apply Hdisk].
  assert (H : once_in_memory (run currencies steps (mkWorld t [] ss ws))).
  { apply run_pres; [apply once_in_memory_notify|apply once_in_memory_log
                     |done|done|].
    intros k'. cbn [trace]. split; [apply Nat.le_0_l|done]. }
  destruct (H k) as [_ H0].
  destruct (decide (k ∈ sent_news (tracker (run currencies steps
                                              (mkWorld t [] ss ws)))))
    as [?|Hn]; [done|].
  specialize (H0 Hn). lia.
Qed.

Lemma delivered_keys_are_recorded_witness :
  boot Absent [] [] = Ok (Samples.fresh [] [])
  ∧ between_checks [CheckNews [Samples.cpi] Samples.at_18_00_30
                              Samples.at_18_00_30;
                    RestartProcess;
                    CheckNews [Samples.cpi] Samples.at_18_00_31
                              Samples.at_18_00_31]
  ∧ ((RestartProcess ∉ [CheckNews [Samples.cpi] Samples.at_18_00_30
                                  Samples.at_18_00_30;
                        RestartProcess;
                        CheckNews [Samples.cpi] Samples.at_18_00_31
                                  Samples.at_18_00_31])
     ∨ Forall (eq WriteOk) [])
  ∧ (0 < deliveries (notification_id Samples.cpi_upcoming 60)
           (trace (run default_currencies
                       [CheckNews [Samples.cpi] Samples.at_18_00_30
                                  Samples.at_18_00_30;
                        RestartProcess;
                        CheckNews [Samples.cpi] Samples.at_18_00_31
                                  Samples.at_18_00_31]
                       (Samples.fresh [] []))))%nat
  ∧ notification_id Samples.cpi_upcoming 60
      ∈ sent_news (tracker (run default_currencies
                       [CheckNews [Samples.cpi] Samples.at_18_00_30
                                  Samples.at_18_00_30;
                        RestartProcess;
                        CheckNews [Samples.cpi] Samples.at_18_00_31
                                  Samples.at_18_00_31]
                       (Samples.fresh [] [])))
  ∧ notification_id Samples.cpi_upcoming 60
      ∈ stored_keys (disk (tracker (run default_currencies
                       [CheckNews [Samples.cpi] Samples.at_18_00_30
                                  Samples.at_18_00_30;
                        RestartProcess;
                        CheckNews [Samples.cpi] Samples.at_18_00_31
                                  Samples.at_18_00_31]
                       (Samples.fresh [] [])))).
Proof.
  assert (H1 : boot Absent [] [] = Ok (Samples.fresh [] [])) by reflexivity.
  assert (H2 : between_checks
                 [CheckNews [Samples.cpi] Samples.at_18_00_30
                            Samples.at_18_00_30;
                  RestartProcess;
                  CheckNews [Samples.cpi] Samples.at_18_00_31
                            Samples.at_18_00_31]) by (repeat constructor).
  assert (Hok : Forall (eq WriteOk) []) by constructor.
  assert (H3 : (RestartProcess ∉ [CheckNews [Samples.cpi] Samples.at_18_00_30
                                            Samples.at_18_00_30;
                                  RestartProcess;
                                  CheckNews [Samples.cpi] Samples.at_18_00_31
                                            Samples.at_18_00_31])
               ∨ Forall (eq WriteOk) []) by (right; exact Hok).
  assert (H4 : (0 < deliveries (notification_id Samples.cpi_upcoming 60)
                      (trace (run default_currencies
                                  [CheckNews [Samples.cpi] Samples.at_18_00_30
                                             Samples.at_18_00_30;
                                   RestartProcess;
                                   CheckNews [Samples.cpi] Samples.at_18_00_31
                                             Samples.at_18_00_31]
                                  (Samples.fresh [] []))))%nat)
    by (vm_compute; lia).
  split; [exact H1|]. split; [exact H2|]. split; [exact H3|].
  split; [exact H4|].
  destruct (delivered_keys_are_recorded _ _ _ _ _ _ _ H1 H2 H3 H4)
    as [Hmem Hfile].
  exact (conj Hmem (Hfile Hok)).
Defined.

(** A process that dies between the send and the mark leaves a delivered
    key that is neither in the set of the next process nor in the
    file. *)
Example killed_delivery_is_not_recorded :
  let w := run default_currencies
             [KilledCheck [Samples.cpi] Samples.at_18_00_30
                          Samples.at_18_00_30]
             (Samples.fresh [] []) in
  deliveries (notification_id Samples.cpi_upcoming 60) (trace w) = 1%nat
  ∧ (notification_id Samples.cpi_upcoming 60 ∉ sent_news (tracker w))
  ∧ (notification_id Samples.cpi_upcoming 60
       ∉ stored_keys (disk (tracker w))).
Proof.
  cbn zeta. split; [vm_compute; reflexivity|].
  split; apply (bool_decide_unpack _); vm_compute; exact I.
Qed.

End ChannelFacts.

(* ===================================================================== *)
(** * More on the selection                                               *)
(* ===================================================================== *)

Section SelectionFacts.
Import Calendar Events Feed.

(** ** Horizons *)

Lemma get_upcoming_events_nil hours feed currencies now :
  (∀ l, upcoming_loop hours now l = None
        ∨ upcoming_loop hours now l = Some []) →
  get_upcoming_events hours feed currencies now = [].
Proof.
  intros H. unfold get_upcoming_events.
  destruct (filter_events _ _ _) as [[refs h]|]; [|done].
  destruct (mapM (getobj h) refs) as [l|]; [|done].
  by destruct (H l) as [-> | ->].
Qed.

Lemma upcoming_loop_overflow hours now l :
  timedelta_hours hours = None →
  upcoming_loop hours now l = None ∨ upcoming_loop hours now l = Some [].
Proof.
  intros Htd. induction l as [|ev l IH]; [by right|].
  cbn [upcoming_loop]. unfold upcoming_step. rewrite Htd.
  destruct (event_date ev now) as [d|]; [|exact IH]. cbn zeta.
  destruct (0 <=? sub_us d now); [by left|exact IH].
Qed.

Lemma upcoming_loop_negative hours now l :
  hours < 0 →
  upcoming_loop hours now l = None ∨ upcoming_loop hours now l = Some [].
Proof.
  intros Hneg. induction l as [|ev l IH]; [by right|].
  cbn [upcoming_loop]. unfold upcoming_step.
  destruct (event_date ev now) as [d|]; [|exact IH]. cbn zeta.
  destruct (Z.leb_spec 0 (sub_us d now)) as [H0|H0]; [|exact IH].
  unfold timedelta_hours.
  destruct ((-999999999 <=? hours / 24) && (hours / 24 <=? 999999999));
    [|by left].
  destruct (Z.leb_spec (sub_us d now) (hours * 3600000000)); [lia|exact IH].
Qed.

Lemma timedelta_hours_range hours :
  ¬ (-999999999 ≤ hours / 24 ≤ 999999999) → timedelta_hours hours = None.
Proof.
  intros H. unfold timedelta_hours.
  destruct (Z.leb_spec (-999999999) (hours / 24));
    destruct (Z.leb_spec (hours / 24) 999999999); cbn [andb]; try done.
  lia.
Qed.

Lemma get_upcoming_events_out_of_range hours feed currencies now :
  hours < 0 ∨ ¬ (-999999999 ≤ hours / 24 ≤ 999999999) →
  get_upcoming_events hours feed currencies now = [].
Proof.
  intros [Hneg|Hov]; apply get_upcoming_events_nil; intros l.
  - by apply upcoming_loop_negative.
  - by apply upcoming_loop_overflow, timedelta_hours_range.
Qed.

(** X11. A horizon that is negative, or too long for [timedelta], selects
    nothing: [get_upcoming_events] returns the empty list, whatever the
    feed holds. *)
Theorem get_upcoming_events_bad_horizon hours feed currencies now :
  hours < 0 ∨ ¬ (-999999999 ≤ hours / 24 ≤ 999999999) →
  get_upcoming_events hours feed currencies now = [].
Proof. apply get_upcoming_events_out_of_range. Qed.

Lemma get_upcoming_events_bad_horizon_witness :
  (-1 < 0 ∨ ¬ (-999999999 ≤ -1 / 24 ≤ 999999999))
  ∧ get_upcoming_events (-1) Samples.feed default_currencies
      Samples.at_18_00_30 = [].
Proof.
  assert (H : -1 < 0 ∨ ¬ (-999999999 ≤ -1 / 24 ≤ 999999999))
    by (left; lia).
  split; [exact H|].
  exact (get_upcoming_events_bad_horizon _ _ _ _ H).
Defined.

Section SortFilter.
Context {A : Type} (key : A → Z) (P : A → Prop) `{!∀ x, Decision (P x)}.

Lemma insert_by_head x l :
  Forall (λ y, key x ≤ key y) l → insert_by key x l = x :: l.
Proof.
  destruct 1 as [|y l Hy _]; [done|]. cbn [insert_by].
  by destruct (Z.leb_spec (key x) (key y)); [|lia].
Qed.

Lemma filter_insert_by x l :
  StronglySorted (λ a b, key a ≤ key b) l →
  filter P (insert_by key x l)
  = if decide (P x) then insert_by key x (filter P l) else filter P l.
Proof.
  induction 1 as [|y l Hl IH Hy]; cbn [insert_by].
  - rewrite filter_cons, filter_nil. by destruct (decide (P x)).
  - destruct (Z.leb_spec (key x) (key y)) as [Hxy|Hxy].
    + rewrite (filter_cons _ x). destruct (decide (P x)) as [Hx|Hx]; [|done].
      symmetry. apply insert_by_head.
      apply Forall_forall. intros z Hz.
      apply list_elem_of_filter in Hz as [_ Hz].
      apply elem_of_cons in Hz as [->|Hz]; [done|].
      rewrite Forall_forall in Hy. specialize (Hy z Hz). lia.
    + rewrite (filter_cons _ y), IH, (filter_cons _ y).
      destruct (decide (P x)) as [Hx|Hx]; [|done].
      destruct (decide (P y)) as [Hpy|Hpy]; [|done].
      cbn [insert_by]. by destruct (Z.leb_spec (key x) (key y)); [lia|].
Qed.

Lemma filter_sort_by l :
  filter P (sort_by key l) = sort_by key (filter P l).
Proof.
  induction l as [|x l IH]; [done|]. cbn [sort_by].
  rewrite filter_insert_by by apply sort_by_sorted.
  rewrite filter_cons, IH. by destruct (decide (P x)).
Qed.

End SortFilter.

Lemma filter_none {A} (P : A → Prop) `{!∀ x, Decision (P x)} l :
  Forall (λ x, ¬ P x) l → filter P l = [].
Proof.
  induction 1 as [|x l Hx _ IH]; [done|].
  rewrite filter_cons. by destruct (decide (P x)).
Qed.

Lemma sorted_filter_prefix {A} (key : A → Z) (c : Z) l :
  StronglySorted (λ a b, key a ≤ key b) l →
  ∃ rest, l = filter (λ e, key e ≤ c) l ++ rest.
Proof.
  induction 1 as [|y l Hl [rest IH] Hy].
  - by exists [].
  - rewrite filter_cons. destruct (decide (key y ≤ c)) as [Hc|Hc].
    + exists rest. cbn [app]. by rewrite <- IH.
    + exists (y :: l). rewrite filter_none; [done|].
      eapply Forall_impl; [exact Hy|]. cbn. intros z Hz. lia.
Qed.

Lemma select_upcoming_shorter h1 h2 now l :
  h1 ≤ h2 →
  select_upcoming h1 now l
  = filter (λ e, datetime_key e ≤ to_us now + h1 * 3600000000)
           (select_upcoming h2 now l).
Proof.
  intros Hh. induction l as [|ev l IH]; [done|].
  rewrite !select_upcoming_cons.
  destruct (event_date ev now) as [d|]; [|exact IH].
  unfold in_window, sub_us.
  destruct (decide (0 ≤ to_us d - to_us now ≤ h2 * 3600000000)) as [H2|H2].
  - rewrite (bool_decide_eq_true_2 _ H2), filter_cons.
    unfold datetime_key at 1. cbn [set_datetime ev_datetime].
    destruct (decide (to_us d ≤ to_us now + h1 * 3600000000)) as [H1|H1].
    + rewrite bool_decide_eq_true_2 by lia. by rewrite IH.
    + rewrite bool_decide_eq_false_2 by lia. exact IH.
  - rewrite (bool_decide_eq_false_2 _ H2).
    rewrite bool_decide_eq_false_2 by lia. exact IH.
Qed.

(** X12. Horizons nest: the events selected for a horizon are those
    selected for any longer horizon whose time is within the shorter one,
    in the same order, and they come first in the longer list. *)
Theorem shorter_horizon_is_a_prefix h1 h2 feed currencies now :
  -999999999 ≤ h1 / 24 → h1 ≤ h2 → h2 / 24 ≤ 999999999 →
  get_upcoming_events h1 feed currencies now
  = filter (λ e, datetime_key e ≤ to_us now + h1 * 3600000000)
           (get_upcoming_events h2 feed currencies now)
  ∧ ∃ later, get_upcoming_events h2 feed currencies now
             = get_upcoming_events h1 feed currencies now ++ later.
Proof.
  intros Hlo Hh Hhi.
  assert (Hd : h1 / 24 ≤ h2 / 24) by (apply Z.div_le_mono; lia).
  assert (E : get_upcoming_events h1 feed currencies now
    = filter (λ e, datetime_key e ≤ to_us now + h1 * 3600000000)
             (get_upcoming_events h2 feed currencies now)).
  { rewrite !get_upcoming_events_eq by lia.
    rewrite (select_upcoming_shorter h1 h2) by done.
    symmetry. apply filter_sort_by. }
  split; [exact E|]. rewrite E.
  apply sorted_filter_prefix.
  rewrite get_upcoming_events_eq by lia. apply sort_by_sorted.
Qed.

Lemma shorter_horizon_is_a_prefix_witness :
  -999999999 ≤ 1 / 24 ∧ 1 ≤ 24 ∧ 24 / 24 ≤ 999999999
  ∧ get_upcoming_events 1 Samples.feed default_currencies Samples.at_18_05_30
    = filter (λ e, datetime_key e
                   ≤ to_us Samples.at_18_05_30 + 1 * 3600000000)
        (get_upcoming_events 24 Samples.feed default_currencies
           Samples.at_18_05_30)
  ∧ ∃ later, get_upcoming_events 24 Samples.feed default_currencies
               Samples.at_18_05_30
             = get_upcoming_events 1 Samples.feed default_currencies
                 Samples.at_18_05_30 ++ later.
Proof.
  assert (H1 : -999999999 ≤ 1 / 24) by (change (1 / 24) with 0; lia).
  assert (H2 : 1 ≤ 24) by lia.
  assert (H3 : 24 / 24 ≤ 999999999) by (change (24 / 24) with 1; lia).
  split; [exact H1|]. split; [exact H2|]. split; [exact H3|].
  exact (shorter_horizon_is_a_prefix 1 24 _ _ _ H1 H2 H3).
Defined.

(** ** The dates of the selected events *)

Lemma days_in_month_pos y m : 28 ≤ days_in_month y m ≤ 31.
Proof.
  unfold days_in_month. destruct (m =? 2); [destruct (is_leap y); lia|].
  destruct ((m =? 4) || (m =? 6) || (m =? 9) || (m =? 11)); lia.
Qed.

Lemma days_before_month_nat_mono y (k k' : nat) :
  (k ≤ k')%nat → days_before_month_nat y k ≤ days_before_month_nat y k'.
Proof.
  induction 1 as [|k' _ IH]; [lia|]. cbn [days_before_month_nat].
  pose proof (days_in_month_pos y (Z.of_nat (S k'))). lia.
Qed.

Lemma days_before_month_succ y m :
  1 ≤ m →
  days_before_month y (m + 1) = days_before_month y m + days_in_month y m.
Proof.
  intros Hm. unfold days_before_month.
  replace (Z.to_nat (m + 1 - 1)) with (S (Z.to_nat (m - 1))) by lia.
  cbn [days_before_month_nat]. do 2 f_equal. lia.
Qed.

Lemma days_before_month_mono y m m' :
  m ≤ m' → days_before_month y m ≤ days_before_month y m'.
Proof.
  intros H. unfold days_before_month. apply days_before_month_nat_mono. lia.
Qed.

(** A moment on an earlier day of the same year is earlier. *)
Lemma earlier_day_earlier d n :
  year d = year n → 1 ≤ month d →
  day d ≤ days_in_month (year d) (month d) →
  0 ≤ hour d ≤ 23 → 0 ≤ minute d ≤ 59 → second d = 0 → microsecond d = 0 →
  1 ≤ day n → 0 ≤ hour n → 0 ≤ minute n → 0 ≤ second n → 0 ≤ microsecond n →
  month d < month n ∨ (month d = month n ∧ day d < day n) →
  to_us d < to_us n.
Proof.
  intros Hy Hm Hd Hh Hmi Hs Hus Hdn Hhn Hmn Hsn Husn Hlt.
  assert (Ho : toordinal d < toordinal n).
  { unfold toordinal. rewrite <- Hy. destruct Hlt as [Hlt|[Hme Hlt]].
    - pose proof (days_before_month_succ (year d) (month d) Hm) as Hs1.
      pose proof (days_before_month_mono (year d) (month d + 1) (month n)
                    ltac:(lia)). lia.
    - rewrite Hme. lia. }
  unfold to_us. rewrite Hs, Hus. nia.
Qed.

Lemma strptime_fields s d0 :
  strptime s = Some d0 →
  year d0 = 1900 ∧ 1 ≤ month d0 ≤ 12 ∧ 1 ≤ day d0
  ∧ 0 ≤ hour d0 ≤ 23 ∧ 0 ≤ minute d0 ≤ 59
  ∧ second d0 = 0 ∧ microsecond d0 = 0.
Proof.
  unfold strptime.
  destruct (list_ascii_of_string s)
    as [|m1 [|m2 [|m3 [|sp1 [|d1 [|d2 [|sp2 [|h1 [|h2 [|co [|n1 [|n2 [|p
        [|mm [|? ?]]]]]]]]]]]]]]]; try discriminate.
  destruct (negb _); [discriminate|].
  destruct (month_of m1 m2 m3) as [mo|] eqn:Hmo; [|discriminate].
  destruct (two_digits d1 d2) as [d|]; [|discriminate].
  destruct (two_digits h1 h2) as [h|]; [|discriminate].
  destruct (two_digits n1 n2) as [mi|] eqn:Hmi; [|discriminate].
  destruct ((1 <=? d) && (d <=? days_in_month 1900 mo) && (1 <=? h)
            && (h <=? 12) && (mi <=? 59)) eqn:Hc; [|discriminate].
  intros [= <-]. cbn [year month day hour minute second microsecond].
  rewrite !andb_true_iff, !Z.leb_le in Hc.
  assert (Hmo' : 1 ≤ mo ≤ 12).
  { unfold month_of, month_names in Hmo. cbn [index_of] in Hmo.
    repeat match type of Hmo with
    | (if ?b then _ else _) = _ =>
        destruct b; [injection Hmo as <-; lia|]
    end. discriminate. }
  assert (Hmi' : 0 ≤ mi).
  { unfold two_digits, digit in Hmi.
    repeat match type of Hmi with
    | context [if ?b then _ else _] => destruct b eqn:?
    end; try discriminate. injection Hmi as <-.
    rewrite ?andb_true_iff, ?Z.leb_le in *. lia. }
  unfold hour24. destruct (Ascii.eqb p "P"); destruct (Z.eqb_spec h 12); lia.
Qed.

(** X13. The year of an event is never read from the feed.  For every
    selected event the occurrence time is in the year of the clock, on a
    month and day that are not before today's; or it is in the next year,
    on today's month and day.  So an event whose month and day are before
    today's is never selected, also when its real date is in the first
    days of the next year. *)
Theorem selected_events_dates hours feed currencies now e :
  valid now →
  e ∈ get_upcoming_events hours feed currencies now →
  ∃ d, ev_datetime e = Some d
       ∧ ((year d = year now
           ∧ (month now < month d
              ∨ (month now = month d ∧ day now ≤ day d)))
          ∨ (year d = year now + 1
             ∧ month d = month now ∧ day d = day now)).
Proof.
  intros (Hy & Hm & Hd & Hh & Hmi & Hs & Hus) He.
  destruct (decide (-999999999 ≤ hours / 24 ≤ 999999999)) as [Hok|Hbad].
  2:{ rewrite get_upcoming_events_out_of_range in He by (by right).
      by apply elem_of_nil in He. }
  rewrite get_upcoming_events_eq, sort_by_perm in He by done.
  apply elem_of_select_upcoming in He as (ev & d & _ & Hed & Hw & ->).
  exists d. split; [done|].
  unfold event_date in Hed.
  destruct (strptime _) as [d0|] eqn:Hp; [|discriminate].
  apply strptime_fields in Hp as (_ & Hm0 & Hd0 & Hh0 & Hmi0 & Hs0 & Hus0).
  cbn [mbind option_bind] in Hed.
  destruct (replace_year d0 (year now)) as [d1|] eqn:Hr;
    cbn [mbind option_bind] in Hed; [|discriminate].
  unfold replace_year in Hr.
  destruct ((1 <=? year now) && (year now <=? 9999)
            && (day d0 <=? days_in_month (year now) (month d0))) eqn:Hc;
    [|discriminate].
  rewrite !andb_true_iff, !Z.leb_le in Hc. destruct Hc as [_ Hdim].
  injection Hr as Hr. symmetry in Hr.
  destruct (same_date d1 now && (time_of_day d1 <? time_of_day now)) eqn:Hsd.
  - right. apply andb_true_iff in Hsd as [Hsd _].
    unfold same_date in Hsd. rewrite !andb_true_iff, !Z.eqb_eq in Hsd.
    destruct Hsd as [[_ Hsm] Hsdy]. cbn in Hsm, Hsdy.
    unfold replace_year in Hed.
    destruct (_ && _) in Hed; [|discriminate]. injection Hed as <-.
    subst d1. cbn in *. by rewrite Hsm, Hsdy.
  - left. injection Hed as <-. split; [by subst d1|].
    replace (month d1) with (month d0) by (by subst d1).
    replace (day d1) with (day d0) by (by subst d1).
    destruct (decide (month now < month d0
                      ∨ (month now = month d0 ∧ day now ≤ day d0)))
      as [?|Hnot]; [done|]. exfalso.
    assert (Hlt : to_us d1 < to_us now).
    { apply earlier_day_earlier; subst d1; cbn; try lia; try done. }
    unfold sub_us in Hw. lia.
Qed.

Lemma selected_events_dates_witness :
  valid Samples.at_18_05_30
  ∧ Samples.cpi_upcoming
      ∈ get_upcoming_events 2 Samples.feed default_currencies
          Samples.at_18_05_30
  ∧ ∃ d, ev_datetime Samples.cpi_upcoming = Some d
         ∧ ((year d = year Samples.at_18_05_30
             ∧ (month Samples.at_18_05_30 < month d
                ∨ (month Samples.at_18_05_30 = month d
                   ∧ day Samples.at_18_05_30 ≤ day d)))
            ∨ (year d = year Samples.at_18_05_30 + 1
               ∧ month d = month Samples.at_18_05_30
               ∧ day d = day Samples.at_18_05_30)).
Proof.
  assert (H1 : valid Samples.at_18_05_30) by (unfold valid; cbn; lia).
  assert (H2 : Samples.cpi_upcoming
                 ∈ get_upcoming_events 2 Samples.feed default_currencies
                     Samples.at_18_05_30)
    by (apply (bool_decide_unpack _); vm_compute; exact I).
  split; [exact H1|]. split; [exact H2|].
  exact (selected_events_dates _ _ _ _ _ H1 H2).
Defined.

(** On 31 December an event of 1 January is read as 1 January of the year
    that ends, and is not selected; an event of the same evening is. *)
Example new_year_is_not_announced :
  get_upcoming_events 72
    [mkDict "Jan 01" "10:00AM" "USD" (VInt 3) "ISM PMI" "N/A" "N/A"
            "Jan 01_10:00AM_USD_ISM PMI" None;
     mkDict "Dec 31" "11:30PM" "USD" (VInt 1) "Close" "N/A" "N/A"
            "Dec 31_11:30PM_USD_Close" None]
    default_currencies (mkDatetime 2026 12 31 22 0 0 0)
  = [mkDict "Dec 31" "11:30PM" "USD" (VStr "Low") "Close" "N/A" "N/A"
            "Dec 31_11:30PM_USD_Close"
            (Some (mkDatetime 2026 12 31 23 30 0 0))].
Proof. vm_compute. reflexivity. Qed.

End SelectionFacts.

(* ===================================================================== *)
(** * Properties of the feed                                              *)
(* ===================================================================== *)

Section FeedFacts.
Import Calendar Events Feed.

#[local] Arguments String.append !_ _ / : simpl nomatch.

Lemma digit_digit_char k : 0 ≤ k ≤ 9 → digit (digit_char k) = Some k.
Proof.
  intros Hk.
  assert (H : k = 0 ∨ k = 1 ∨ k = 2 ∨ k = 3 ∨ k = 4 ∨ k = 5 ∨ k = 6
              ∨ k = 7 ∨ k = 8 ∨ k = 9) by lia.
  repeat destruct H as [->|H]; try subst k; reflexivity.
Qed.

Lemma two_digits_pad2 n c1 c2 :
  0 ≤ n ≤ 99 → pad2 n = String c1 (String c2 "") →
  two_digits c1 c2 = Some n.
Proof.
  intros Hn [= <- <-]. unfold two_digits.
  rewrite !digit_digit_char by (Z.to_euclidean_division_equations; lia).
  f_equal. Z.to_euclidean_division_equations. lia.
Qed.

Lemma hour24_hour12 h :
  0 ≤ h ≤ 23 →
  1 ≤ hour12 h ≤ 12 ∧ hour24 (hour12 h) (negb (h <? 12)) = h.
Proof.
  intros Hh. unfold hour12, hour24.
  destruct (Z.eqb_spec (h mod 12) 0) as [E|E];
    destruct (Z.ltb_spec h 12) as [L|L]; cbn [negb].
  - split; [lia|]. cbn. Z.to_euclidean_division_equations. lia.
  - split; [lia|]. cbn. Z.to_euclidean_division_equations. lia.
  - split; [Z.to_euclidean_division_equations; lia|].
    destruct (Z.eqb_spec (h mod 12) 12);
      Z.to_euclidean_division_equations; lia.
  - split; [Z.to_euclidean_division_equations; lia|].
    destruct (Z.eqb_spec (h mod 12) 12);
      Z.to_euclidean_division_equations; lia.
Qed.

Lemma month_abbr_chars m :
  1 ≤ m ≤ 12 →
  ∃ m1 m2 m3, month_abbr m = String m1 (String m2 (String m3 ""))
              ∧ month_of m1 m2 m3 = Some m.
Proof.
  intros Hm.
  assert (H : m = 1 ∨ m = 2 ∨ m = 3 ∨ m = 4 ∨ m = 5 ∨ m = 6 ∨ m = 7
              ∨ m = 8 ∨ m = 9 ∨ m = 10 ∨ m = 11 ∨ m = 12) by lia.
  repeat destruct H as [->|H]; try subst m;
    eexists _, _, _; (split; [reflexivity|reflexivity]).
Qed.

Lemma strptime_chars m1 m2 m3 d1 d2 h1 h2 n1 n2 (pm : bool) mo d h mi :
  month_of m1 m2 m3 = Some mo → two_digits d1 d2 = Some d →
  two_digits h1 h2 = Some h → two_digits n1 n2 = Some mi →
  strptime
    (String m1 (String m2 (String m3 (String " " (String d1 (String d2
     (String " " (String h1 (String h2 (String ":" (String n1 (String n2
     (if pm then "PM" else "AM")))))))))))))
  = if (1 <=? d) && (d <=? days_in_month 1900 mo)
       && (1 <=? h) && (h <=? 12) && (mi <=? 59)
    then Some (mkDatetime 1900 mo d (hour24 h pm) mi 0 0)
    else None.
Proof.
  intros Hmo Hd Hh Hmi. unfold strptime.
  destruct pm; cbn [list_ascii_of_string]; rewrite Hmo, Hd, Hh, Hmi;
    reflexivity.
Qed.

Lemma days_in_month_1900 y m d :
  1 ≤ m ≤ 12 → 1 ≤ d ≤ days_in_month y m →
  (d <=? days_in_month 1900 m) = negb ((m =? 2) && (d =? 29)).
Proof.
  intros Hm Hd. unfold days_in_month in *.
  destruct (Z.eqb_spec m 2) as [->|Hm2]; cbn [andb negb].
  - change (is_leap 1900) with false. cbn.
    destruct (is_leap y); destruct (Z.eqb_spec d 29); cbn [negb]; lia.
  - destruct ((m =? 4) || (m =? 6) || (m =? 9) || (m =? 11)); lia.
Qed.

(** The string that the normalizer writes for a local time, read back by
    the parser of the selection. *)
Lemma strptime_strftime d :
  valid d →
  strptime (strftime_b_d d +:+ " " +:+ strftime_I_M_p d)
  = if (month d =? 2) && (day d =? 29) then None
    else Some (mkDatetime 1900 (month d) (day d) (hour d) (minute d) 0 0).
Proof.
  intros (_ & Hm & Hd & Hh & Hmi & _).
  destruct (month_abbr_chars (month d) Hm) as (m1 & m2 & m3 & Em & Hmo).
  destruct (hour24_hour12 (hour d) Hh) as [Hh12 Hh24].
  assert (Hd99 : 0 ≤ day d ≤ 99).
  { unfold days_in_month in Hd.
    destruct (month d =? 2); [destruct (is_leap (year d)); lia|].
    destruct ((month d =? 4) || (month d =? 6) || (month d =? 9)
              || (month d =? 11)); lia. }
  unfold strftime_b_d, strftime_I_M_p. rewrite Em.
  destruct (pad2 (day d)) as [|d1 [|d2 [|? ?]]] eqn:Ed; try discriminate Ed.
  destruct (pad2 (hour12 (hour d))) as [|h1 [|h2 [|? ?]]] eqn:Eh;
    try discriminate Eh.
  destruct (pad2 (minute d)) as [|n1 [|n2 [|? ?]]] eqn:En;
    try discriminate En.
  replace (if hour d <? 12 then "AM" else "PM")
    with (if negb (hour d <? 12) then "PM" else "AM")
    by (by destruct (hour d <? 12)).
  cbn [String.append].
  change ("" +:+ (if negb (hour d <? 12) then "PM" else "AM"))
    with (if negb (hour d <? 12) then "PM" else "AM").
  rewrite (strptime_chars _ _ _ _ _ _ _ _ _ _ (month d) (day d)
             (hour12 (hour d)) (minute d) Hmo);
    [|by apply two_digits_pad2|apply two_digits_pad2; [lia|done]
     |apply two_digits_pad2; [lia|done]].
  rewrite Hh24, (days_in_month_1900 (year d)) by done.
  replace (1 <=? day d) with true by (symmetry; apply Z.leb_le; lia).
  replace (1 <=? hour12 (hour d)) with true by (symmetry; apply Z.leb_le; lia).
  replace (hour12 (hour d) <=? 12) with true
    by (symmetry; apply Z.leb_le; lia).
  replace (minute d <=? 59) with true by (symmetry; apply Z.leb_le; lia).
  by destruct ((month d =? 2) && (day d =? 29)).
Qed.

Lemma days_in_month_1900_le y m :
  days_in_month 1900 m ≤ days_in_month y m.
Proof.
  unfold days_in_month. destruct (m =? 2); [|lia].
  change (is_leap 1900) with false. cbn. destruct (is_leap y); lia.
Qed.

Lemma event_data_fields d country impact title forecast previous :
  let ev := enrich (event_data d country impact title forecast previous) in
  ev_date ev = strftime_b_d d ∧ ev_time ev = strftime_I_M_p d.
Proof.
  cbn zeta.
  destruct (enrich_fields (event_data d country impact title forecast
                             previous)) as (-> & -> & _).
  done.
Qed.

(** X14. What the normalizer writes, the selection reads back.  For a
    record whose local time is [d], not on 29 February, the parser of
    [get_upcoming_events] accepts the date and time strings, and the
    occurrence time it computes has the month, day, hour and minute of
    [d] in the year of the clock, or in the next year when that moment of
    today has passed: the seconds and the year of [d] play no part. *)
Theorem normalized_event_date d country impact title forecast previous now :
  valid d → ¬ (month d = 2 ∧ day d = 29) → 1 ≤ year now ≤ 9998 →
  let ev := enrich (event_data d country impact title forecast previous) in
  let at_year y := mkDatetime y (month d) (day d) (hour d) (minute d) 0 0 in
  strptime (ev_date ev +:+ " " +:+ ev_time ev) = Some (at_year 1900)
  ∧ event_date ev now
    = Some (if same_date (at_year (year now)) now
               && (time_of_day (at_year (year now)) <? time_of_day now)
            then at_year (year now + 1)
            else at_year (year now)).
Proof.
  intros Hv Hleap Hy ev at_year.
  assert (Hp : strptime (ev_date ev +:+ " " +:+ ev_time ev)
               = Some (at_year 1900)).
  { subst ev.
    destruct (event_data_fields d country impact title forecast previous)
      as [-> ->].
    rewrite (strptime_strftime d Hv).
    destruct (Z.eqb_spec (month d) 2) as [Hm|Hm]; [|done].
    destruct (Z.eqb_spec (day d) 29) as [Hd|Hd]; [|done]. tauto. }
  split; [exact Hp|].
  unfold event_date. rewrite Hp. cbn [mbind option_bind].
  destruct Hv as (_ & Hm & Hd & _).
  assert (Hd1900 : day d ≤ days_in_month 1900 (month d)).
  { pose proof (days_in_month_1900 (year d) (month d) (day d) Hm Hd) as H.
    destruct (Z.leb_spec (day d) (days_in_month 1900 (month d))); [done|].
    symmetry in H. apply negb_false_iff, andb_true_iff in H.
    rewrite !Z.eqb_eq in H. tauto. }
  assert (Hr : ∀ y d', 1 ≤ y ≤ 9999 →
            month d' = month d → day d' = day d →
            replace_year d' y
            = Some (mkDatetime y (month d') (day d') (hour d') (minute d')
                               (second d') (microsecond d'))).
  { intros y d' Hy' Em Ed. unfold replace_year.
    pose proof (days_in_month_1900_le y (month d)).
    rewrite Em, Ed.
    replace (1 <=? y) with true by (symmetry; apply Z.leb_le; lia).
    replace (y <=? 9999) with true by (symmetry; apply Z.leb_le; lia).
    replace (day d <=? days_in_month y (month d)) with true
      by (symmetry; apply Z.leb_le; lia).
    done. }
  rewrite (Hr (year now)) by (done || lia). subst at_year.
  cbn [mbind option_bind month day hour minute second microsecond].
  destruct (same_date _ now && _); [|done].
  by rewrite (Hr (year now + 1)) by (done || lia).
Qed.

Lemma normalized_event_date_witness :
  valid (mkDatetime 2031 11 5 19 0 42 0)
  ∧ ¬ (month (mkDatetime 2031 11 5 19 0 42 0) = 2
       ∧ day (mkDatetime 2031 11 5 19 0 42 0) = 29)
  ∧ 1 ≤ year Samples.at_18_05_30 ≤ 9998
  ∧ strptime ("Nov 05" +:+ " " +:+ "07:00PM")
    = Some (mkDatetime 1900 11 5 19 0 0 0)
  ∧ event_date
      (enrich (event_data (mkDatetime 2031 11 5 19 0 42 0) "USD" "High"
                 "CPI m/m" (Some "0.3%") None))
      Samples.at_18_05_30
    = Some Samples.at_19_00.
Proof.
  assert (H1 : valid (mkDatetime 2031 11 5 19 0 42 0))
    by (unfold valid; cbn; lia).
  assert (H2 : ¬ (month (mkDatetime 2031 11 5 19 0 42 0) = 2
                  ∧ day (mkDatetime 2031 11 5 19 0 42 0) = 29))
    by (cbn; lia).
  assert (H3 : 1 ≤ year Samples.at_18_05_30 ≤ 9998) by (cbn; lia).
  split; [exact H1|]. split; [exact H2|]. split; [exact H3|].
  exact (normalized_event_date _ "USD" "High" "CPI m/m" (Some "0.3%") None
           _ H1 H2 H3).
Defined.

Lemma strptime_feb_29 t : strptime ("Feb 29" +:+ " " +:+ t) = None.
Proof.
  unfold strptime. cbn [String.append list_ascii_of_string].
  destruct t as [|h1 [|h2 [|co [|n1 [|n2 [|p [|mm [|? ?]]]]]]]];
    cbn [list_ascii_of_string]; try reflexivity.
  destruct (negb _); [reflexivity|].
  change (month_of "F" "e" "b") with (Some 2).
  change (two_digits "2" "9") with (Some 29).
  destruct (two_digits h1 h2); [|reflexivity].
  destruct (two_digits n1 n2); reflexivity.
Qed.

(** X15. An event of 29 February is never announced.  The normalizer
    writes its date as ["Feb 29"]; the selection parses dates in the year
    1900, which has no such day, and skips the event: no event with that
    date is in the result of [get_upcoming_events], in a leap year as in
    any other. *)
Theorem leap_day_is_never_selected d hours feed currencies now e :
  month d = 2 → day d = 29 →
  strftime_b_d d = "Feb 29"
  ∧ (∀ country impact title forecast previous,
       event_date (enrich (event_data d country impact title forecast
                             previous)) now = None)
  ∧ (e ∈ get_upcoming_events hours feed currencies now →
     ev_date e ≠ strftime_b_d d).
Proof.
  intros Hm Hd.
  assert (E : strftime_b_d d = "Feb 29")
    by (unfold strftime_b_d; rewrite Hm, Hd; reflexivity).
  split; [exact E|]. split.
  - intros country impact title forecast previous. unfold event_date.
    destruct (event_data_fields d country impact title forecast previous)
      as [-> ->].
    by rewrite E, strptime_feb_29.
  - intros He Heq. rewrite E in Heq.
    destruct (decide (-999999999 ≤ hours / 24 ≤ 999999999)) as [Hok|Hbad].
    2:{ rewrite get_upcoming_events_out_of_range in He by (by right).
        by apply elem_of_nil in He. }
    rewrite get_upcoming_events_eq, sort_by_perm in He by done.
    apply elem_of_select_upcoming in He as (ev & d' & _ & Hed & _ & ->).
    cbn [set_datetime ev_date] in Heq. unfold event_date in Hed.
    rewrite Heq, strptime_feb_29 in Hed. discriminate Hed.
Qed.

Lemma leap_day_is_never_selected_witness :
  month (mkDatetime 2028 2 29 18 30 0 0) = 2
  ∧ day (mkDatetime 2028 2 29 18 30 0 0) = 29
  ∧ strftime_b_d (mkDatetime 2028 2 29 18 30 0 0) = "Feb 29"
  ∧ (∀ country impact title forecast previous,
       event_date (enrich (event_data (mkDatetime 2028 2 29 18 30 0 0)
                             country impact title forecast previous))
                  (mkDatetime 2028 2 29 18 0 0 0) = None)
  ∧ (Samples.cpi_upcoming
       ∈ get_upcoming_events 2 Samples.feed default_currencies
           (mkDatetime 2028 2 29 18 0 0 0) →
     ev_date Samples.cpi_upcoming
     ≠ strftime_b_d (mkDatetime 2028 2 29 18 30 0 0)).
Proof.
  assert (H1 : month (mkDatetime 2028 2 29 18 30 0 0) = 2) by reflexivity.
  assert (H2 : day (mkDatetime 2028 2 29 18 30 0 0) = 29) by reflexivity.
  split; [exact H1|]. split; [exact H2|].
  exact (leap_day_is_never_selected _ 2 Samples.feed default_currencies
           _ Samples.cpi_upcoming H1 H2).
Defined.

(** ** Impact *)

(** X16. The impact survives the two maps.  The normalizer turns the
    feed's word into a number and [filter_events] turns the number back
    into a word: the four known words come back as they were, and every
    other word comes back as ["Low"]; ["Unknown"] is never shown for an
    event of the feed. *)
Theorem impact_round_trip d country impact title forecast previous :
  ev_impact (enrich (event_data d country impact title forecast previous))
  = VStr (if bool_decide (impact ∈ ["Low"; "Medium"; "High"; "Holiday"])
          then impact else "Low").
Proof.
  destruct (enrich_fields (event_data d country impact title forecast
                             previous)) as (_ & _ & _ & _ & _ & _ & _ & ->).
  cbn [event_data ev_impact]. unfold impact_of.
  destruct (String.eqb_spec impact "Low") as [->|H1]; [done|].
  destruct (String.eqb_spec impact "Medium") as [->|H2]; [done|].
  destruct (String.eqb_spec impact "High") as [->|H3]; [done|].
  destruct (String.eqb_spec impact "Holiday") as [->|H4]; [done|].
  rewrite bool_decide_eq_false_2; [done|].
  rewrite !elem_of_cons, elem_of_nil. tauto.
Qed.

(** ** The batch *)

Section Batch.
Variable parse_local : string → option datetime.

Lemma process_loop_eq events formatted_events :
  process_loop parse_local events formatted_events
  = formatted_events ++ omap (format_event parse_local) events.
Proof.
  revert formatted_events.
  induction events as [|event rest IH]; intros acc; cbn [process_loop].
  - by rewrite app_nil_r.
  - cbn [omap list_omap]. destruct (format_event parse_local event) as [ev|].
    + by rewrite IH, <- app_assoc.
    + apply IH.
Qed.

Lemma process_events_eq events :
  process_events parse_local events = omap (format_event parse_local) events.
Proof. unfold process_events. by rewrite process_loop_eq. Qed.

(** X17. A record that cannot be converted is dropped and nothing else
    changes: the output for a feed is the output for the records before
    it, then its own event if it has one, then the output for the records
    after it.  A record has no event exactly when its date, country,
    impact or title is missing, or its date cannot be parsed; a missing
    forecast or previous value is ["N/A"]. *)
Theorem process_events_drops_only_bad_records before event after :
  process_events parse_local (before ++ event :: after)
  = process_events parse_local before
    ++ option_list (format_event parse_local event)
    ++ process_events parse_local after
  ∧ (format_event parse_local event = None ↔
       raw_date event = None
       ∨ (∃ s, raw_date event = Some s ∧ parse_local s = None)
       ∨ raw_country event = None ∨ raw_impact event = None
       ∨ raw_title event = None)
  ∧ (∀ ev, format_event parse_local event = Some ev →
           ev_forecast ev = default "N/A" (raw_forecast event)
           ∧ ev_previous ev = default "N/A" (raw_previous event)
           ∧ ev_datetime ev = None
           ∧ ev_id ev = ev_date ev +:+ "_" +:+ ev_time ev +:+ "_"
                        +:+ ev_currency ev +:+ "_" +:+ ev_event ev).
Proof.
  split; [|split].
  - rewrite !process_events_eq, omap_app. cbn [omap list_omap].
    by destruct (format_event parse_local event).
  - unfold format_event.
    destruct (raw_date event) as [s|]; cbn [mbind option_bind].
    2:{ split; [by left|done]. }
    destruct (parse_local s) as [d|] eqn:Hp; cbn [mbind option_bind].
    2:{ split; [|done]. intros _. right. left. by exists s. }
    destruct (raw_country event), (raw_impact event), (raw_title event);
      cbn [mbind option_bind]; split; try done; try tauto.
    intros [H|[(s' & [= <-] & H)|[H|[H|H]]]]; congruence.
  - intros ev. unfold format_event.
    destruct (raw_date event) as [s|]; cbn [mbind option_bind]; [|done].
    destruct (parse_local s) as [d|]; cbn [mbind option_bind]; [|done].
    destruct (raw_country event), (raw_impact event), (raw_title event);
      cbn [mbind option_bind]; try done.
    by intros [= <-].
Qed.

(** X18. When the fetch fails the feed is empty, and a check on it does
    nothing at all; so does a check on a feed with no event of a
    configured currency. *)
Theorem check_on_empty_selection currencies feed now_sel now w :
  scrape_forex_factory parse_local None = []
  ∧ Notifier.check_upcoming_news currencies
      (scrape_forex_factory parse_local None) now_sel now w
    = (w, Store.Ok tt)
  ∧ ((∀ ev, ev ∈ feed → ev_currency ev ∉ currencies) →
     Notifier.check_upcoming_news currencies feed now_sel now w
     = (w, Store.Ok tt)).
Proof.
  assert (H : ∀ feed', (∀ ev, ev ∈ feed' → ev_currency ev ∉ currencies) →
            Notifier.check_upcoming_news currencies feed' now_sel now w
            = (w, Store.Ok tt)).
  { intros feed' Hnone. unfold Notifier.check_upcoming_news.
    rewrite get_upcoming_events_eq by (change (2 / 24) with 0; lia).
    rewrite filter_none; [done|].
    apply Forall_forall. exact Hnone. }
  split; [done|]. split; [|apply H].
  apply H. intros ev Hev. by apply elem_of_nil in Hev.
Qed.

End Batch.

End FeedFacts.

(* ===================================================================== *)
(** * Properties of the command and of the weekly schedule                *)
(* ===================================================================== *)

Section CommandFacts.
Import Calendar Events Commands.

(** X19. [/upcoming] never asks for a horizon outside 1 to 72 hours: for
    every integer argument, however large or negative, the administrator
    gets the events that [get_upcoming_events] selects for the argument
    brought into that range, in time order, and the overflow of
    [timedelta] cannot happen; without an argument the horizon is 24
    hours. *)
Theorem cmd_upcoming_clamps_the_horizon (int : string → option Z)
    admin_id parts feed currencies now answer_raises h :
  requested_hours int parts = Some h →
  let hours := Z.min (Z.max h 1) 72 in
  let selected :=
    sort_by datetime_key
      (select_upcoming hours now
         (map enrich (filter (λ d, ev_currency d ∈ currencies) feed))) in
  1 ≤ hours ≤ 72
  ∧ (1 ≤ h ≤ 72 → hours = h)
  ∧ ((List.length parts ≤ 1)%nat → h = 24)
  ∧ head (cmd_upcoming int admin_id admin_id parts feed currencies now
            answer_raises)
    = Some (match selected with
            | [] => NoUpcomingEvents
            | _ => UpcomingEvents hours selected
            end).
Proof.
  intros Hreq hours selected.
  assert (Hr : 1 ≤ hours ≤ 72) by (subst hours; lia).
  split; [exact Hr|]. split; [subst hours; lia|]. split.
  - intros Hlen. destruct parts as [|? [|? ?]]; cbn in Hlen, Hreq;
      [congruence|congruence|lia].
  - unfold cmd_upcoming. rewrite Z.eqb_refl, Hreq. cbn [negb]. cbn zeta.
    fold hours.
    rewrite get_upcoming_events_eq by
      (split; [apply Z.le_trans with 0; [lia|apply Z.div_pos; lia]
              |apply Z.le_trans with hours; [apply Z.div_le_upper_bound; lia|lia]]).
    fold selected. by destruct answer_raises.
Qed.

Lemma cmd_upcoming_clamps_the_horizon_witness :
  requested_hours (λ s, if String.eqb s "100000000000" then Some 100000000000
                        else None)
                  ["/upcoming"; "100000000000"] = Some 100000000000
  ∧ head (cmd_upcoming
            (λ s, if String.eqb s "100000000000" then Some 100000000000
                  else None)
            7 7 ["/upcoming"; "100000000000"] Samples.feed default_currencies
            Samples.at_18_05_30 false)
    = Some (UpcomingEvents 72
              (get_upcoming_events 72 Samples.feed default_currencies
                 Samples.at_18_05_30)).
Proof.
  assert (H : requested_hours
                (λ s, if String.eqb s "100000000000" then Some 100000000000
                      else None)
                ["/upcoming"; "100000000000"] = Some 100000000000)
    by reflexivity.
  split; [exact H|].
  exact (proj2 (proj2 (proj2
    (cmd_upcoming_clamps_the_horizon _ 7 _ Samples.feed default_currencies
       Samples.at_18_05_30 false _ H)))).
Defined.

(** ** The weekly schedule *)

Lemma entries_of_app l l' : entries_of (l ++ l') = entries_of l ++ entries_of l'.
Proof. apply omap_app. Qed.

Lemma weekly_loop_eq events current message :
  ∃ pieces,
    weekly_loop events current message = message ++ pieces
    ∧ entries_of pieces = events
    ∧ under_dates current pieces
    ∧ (List.length (headers_of pieces) ≤ List.length events)%nat.
Proof.
  revert current message.
  induction events as [|event rest IH]; intros current message.
  - exists []. by rewrite app_nil_r.
  - cbn [weekly_loop].
    destruct (decide (Some (ev_date event) ≠ current)) as [Hne|Heq].
    + rewrite (bool_decide_eq_true_2 _ Hne).
      destruct (IH (Some (ev_date event))
                  (message ++ [DateHeader (ev_date event); Entry event]))
        as (pieces & -> & He & Hu & Hl).
      exists (DateHeader (ev_date event) :: Entry event :: pieces).
      split; [by rewrite <- app_assoc|]. split; [cbn; by rewrite <- He|].
      split; [cbn [under_dates]; split; [congruence|by split]|].
      change (headers_of (DateHeader (ev_date event) :: Entry event :: pieces))
        with (ev_date event :: headers_of pieces).
      cbn [List.length]. lia.
    + rewrite (bool_decide_eq_false_2 _ Heq).
      destruct (IH current (message ++ [Entry event]))
        as (pieces & -> & He & Hu & Hl).
      exists (Entry event :: pieces).
      split; [by rewrite <- app_assoc|]. split; [cbn; by rewrite <- He|].
      split; [cbn [under_dates]; split; [|done]|].
      2:{ change (headers_of (Entry event :: pieces))
            with (headers_of pieces). cbn [List.length]. lia. }
      symmetry. by apply dec_stable.
Qed.

(** X20. The weekly schedule.  Nothing is sent when no event of the feed
    has a configured currency.  Otherwise the message is the title
    followed by the filtered events in feed order, each standing under a
    header with its date, a header being written exactly where the date
    differs from the date of the event before. *)
Theorem weekly_message_spec feed currencies :
  let events := map enrich (filter (λ d, ev_currency d ∈ currencies) feed) in
  match weekly_message feed currencies with
  | None => events = []
  | Some message =>
      events ≠ []
      ∧ ∃ pieces, message = Title :: pieces
                  ∧ entries_of pieces = events
                  ∧ under_dates None pieces
                  ∧ (1 ≤ List.length (headers_of pieces)
                       ≤ List.length events)%nat
  end.
Proof.
  cbn zeta. unfold weekly_message.
  pose proof (lookup_fresh_objects [] feed) as HF. cbn [app List.length] in HF.
  destruct (filter_events_run feed _ feed (Some currencies) HF) as [-> Hm].
  rewrite Hm. cbn [default].
  destruct (map enrich _) as [|ev evs] eqn:E; [done|].
  split; [done|].
  destruct (weekly_loop_eq (ev :: evs) None [Title])
    as (pieces & -> & He & Hu & Hl).
  exists pieces. split; [done|]. split; [done|]. split; [done|].
  split; [|done].
  destruct pieces as [|[|s|ev'] rest]; cbn in He, Hu |- *; try done; try lia.
  by destruct Hu.
Qed.

Lemma grouped_head_filter (P : Dict → Prop) `{!∀ x, Decision (P x)} x l :
  grouped (x :: map ev_date l) →
  x ∈ map ev_date (filter P l) →
  head (map ev_date (filter P l)) = Some x.
Proof.
  induction l as [|y l IH]; intros Hg Hin.
  - by apply elem_of_nil in Hin.
  - assert (Hy : ev_date y = x).
    { destruct Hg as [Hh _]. cbn in Hh.
      assert (Hx : x ∈ ev_date y :: map ev_date l).
      { apply list_elem_of_fmap in Hin as (e & -> & He).
        apply list_elem_of_filter in He as [_ He].
        apply elem_of_cons in He as [->|He]; apply elem_of_cons;
          [by left|right]. apply list_elem_of_fmap. by exists e. }
      specialize (Hh Hx). by injection Hh. }
    rewrite filter_cons in *. destruct (decide (P y)); [by rewrite <- Hy|].
    apply IH; [|done]. destruct Hg as [_ Hg]. cbn in Hg. by rewrite Hy in Hg.
Qed.

Lemma grouped_filter (P : Dict → Prop) `{!∀ x, Decision (P x)} l :
  grouped (map ev_date l) → grouped (map ev_date (filter P l)).
Proof.
  induction l as [|y l IH]; [done|]. intros Hg.
  rewrite filter_cons. destruct (decide (P y)).
  - split; [by apply grouped_head_filter|]. apply IH. by destruct Hg.
  - apply IH. by destruct Hg.
Qed.

Lemma weekly_headers events current message :
  grouped (map ev_date events) →
  (∀ c, current = Some c → c ∈ map ev_date events →
        head (map ev_date events) = Some c) →
  ∃ pieces,
    weekly_loop events current message = message ++ pieces
    ∧ NoDup (headers_of pieces)
    ∧ (∀ s, s ∈ headers_of pieces →
            s ∈ map ev_date events ∧ Some s ≠ current)
    ∧ (∀ s, s ∈ map ev_date events →
            s ∈ headers_of pieces ∨ Some s = current).
Proof.
  revert current message.
  induction events as [|event rest IH]; intros current message Hg Hc.
  - exists []. rewrite app_nil_r. split; [done|]. split; [constructor|].
    split; intros s Hs; by apply elem_of_nil in Hs.
  - destruct Hg as [Hhead Hg]. cbn [weekly_loop].
    destruct (decide (Some (ev_date event) ≠ current)) as [Hne|Heq].
    + rewrite (bool_decide_eq_true_2 _ Hne).
      destruct (IH (Some (ev_date event))
                  (message ++ [DateHeader (ev_date event); Entry event]) Hg)
        as (pieces & -> & Hnd & Hin & Hall).
      { intros c [= <-]. exact Hhead. }
      exists (DateHeader (ev_date event) :: Entry event :: pieces).
      change (headers_of (DateHeader (ev_date event) :: Entry event :: pieces))
        with (ev_date event :: headers_of pieces).
      split; [by rewrite <- app_assoc|]. split; [|split].
      * constructor; [|done]. intros Hx. by destruct (Hin _ Hx) as [_ []].
      * intros s Hs. cbn [map]. rewrite elem_of_cons.
        apply elem_of_cons in Hs as [->|Hs]; [by split; [left|]|].
        destruct (Hin s Hs) as [Hs' Hne']. split; [by right|].
        intros Hcur. symmetry in Hcur.
        assert (Hsin : s ∈ map ev_date (event :: rest))
          by (cbn [map]; apply elem_of_cons; by right).
        specialize (Hc s Hcur Hsin). cbn in Hc. congruence.
      * intros s Hs. cbn [map] in Hs. left. rewrite elem_of_cons.
        apply elem_of_cons in Hs as [->|Hs]; [by left|].
        destruct (Hall s Hs) as [?|[= ->]]; [by right|by left].
    + rewrite (bool_decide_eq_false_2 _ Heq). apply dec_stable in Heq.
      destruct (IH current (message ++ [Entry event]) Hg)
        as (pieces & -> & Hnd & Hin & Hall).
      { intros c Hcur Hcin. rewrite Hcur in Heq. injection Heq as Heq.
        subst c. by apply Hhead. }
      exists (Entry event :: pieces).
      change (headers_of (Entry event :: pieces)) with (headers_of pieces).
      split; [by rewrite <- app_assoc|]. split; [done|]. split.
      * intros s Hs. destruct (Hin s Hs) as [Hs' Hne']. split; [|done].
        cbn [map]. apply elem_of_cons. by right.
      * intros s Hs. cbn [map] in Hs.
        apply elem_of_cons in Hs as [->|Hs]; [by right|]. by apply Hall.
Qed.

(** X21. When the feed keeps the events of each day together, the weekly
    message has one header for every day that has a kept event, and no
    day has two. *)
Theorem weekly_message_one_header_per_day feed currencies message :
  grouped (map ev_date feed) →
  weekly_message feed currencies = Some message →
  NoDup (headers_of message)
  ∧ ∀ s, s ∈ headers_of message
         ↔ s ∈ map ev_date (filter (λ d, ev_currency d ∈ currencies) feed).
Proof.
  intros Hg. unfold weekly_message.
  pose proof (lookup_fresh_objects [] feed) as HF. cbn [app List.length] in HF.
  destruct (filter_events_run feed _ feed (Some currencies) HF) as [-> Hm].
  rewrite Hm.
  change (default default_currencies (Some currencies)) with currencies.
  set (kept := filter (λ d, ev_currency d ∈ currencies) feed).
  assert (Hd : map ev_date (map enrich kept) = map ev_date kept).
  { rewrite <- list_fmap_compose. apply list_fmap_ext. intros i e _. cbn.
    by destruct (enrich_fields e) as [-> _]. }
  destruct (weekly_headers (map enrich kept) None [Title])
    as (pieces & E & Hnd & Hin & Hall).
  { rewrite Hd. by apply grouped_filter. }
  { done. }
  destruct (map enrich kept) as [|ev evs] eqn:Ek; [done|].
  intros [= <-].
  change (weekly_loop evs (Some (ev_date ev))
            [Title; DateHeader (ev_date ev); Entry ev])
    with (weekly_loop (ev :: evs) None [Title]).
  rewrite E.
  change (headers_of ([Title] ++ pieces)) with (headers_of pieces).
  split; [done|]. intros s. rewrite <- Hd. split.
  - intros Hs. by destruct (Hin s Hs).
  - intros Hs. by destruct (Hall s Hs).
Qed.

Lemma weekly_message_one_header_per_day_witness :
  grouped (map ev_date Samples.feed)
  ∧ weekly_message Samples.feed default_currencies
    = Some [Title; DateHeader "Nov 05"; Entry (enrich Samples.cpi);
            Entry (enrich Samples.pmi); Entry (enrich Samples.rate)]
  ∧ NoDup (headers_of [Title; DateHeader "Nov 05"; Entry (enrich Samples.cpi);
                       Entry (enrich Samples.pmi); Entry (enrich Samples.rate)])
  ∧ ∀ s, s ∈ headers_of [Title; DateHeader "Nov 05";
                         Entry (enrich Samples.cpi);
                         Entry (enrich Samples.pmi);
                         Entry (enrich Samples.rate)]
         ↔ s ∈ map ev_date (filter (λ d, ev_currency d ∈ default_currencies)
                              Samples.feed).
Proof.
  assert (H1 : grouped (map ev_date Samples.feed))
    by (cbn; repeat split; intros H;
        first [reflexivity | by apply elem_of_nil in H]).
  assert (H2 : weekly_message Samples.feed default_currencies
               = Some [Title; DateHeader "Nov 05"; Entry (enrich Samples.cpi);
                       Entry (enrich Samples.pmi); Entry (enrich Samples.rate)])
    by (vm_compute; reflexivity).
  split; [exact H1|]. split; [exact H2|].
  exact (weekly_message_one_header_per_day _ _ _ H1 H2).
Defined.

(** A feed whose days are not grouped gets a header again when a day
    comes back. *)
Example weekly_header_repeats :
  weekly_message
    [mkDict "Nov 05" "07:00PM" "USD" (VInt 3) "CPI m/m" "N/A" "N/A" "a" None;
     mkDict "Nov 06" "07:00PM" "USD" (VInt 3) "PPI m/m" "N/A" "N/A" "b" None;
     mkDict "Nov 05" "09:00PM" "USD" (VInt 3) "FOMC" "N/A" "N/A" "c" None]
    default_currencies
  = Some
      [Title;
       DateHeader "Nov 05";
       Entry (mkDict "Nov 05" "07:00PM" "USD" (VStr "High") "CPI m/m" "N/A"
                     "N/A" "a" None);
       DateHeader "Nov 06";
       Entry (mkDict "Nov 06" "07:00PM" "USD" (VStr "High") "PPI m/m" "N/A"
                     "N/A" "b" None);
       DateHeader "Nov 05";
       Entry (mkDict "Nov 05" "09:00PM" "USD" (VStr "High") "FOMC" "N/A"
                     "N/A" "c" None)].
Proof. vm_compute. reflexivity. Qed.

End CommandFacts.
